(** * OpenRecall dashboard: data-fetching and view-state layer

    A shallow embedding of the React hooks and pages of the frontend
    ([TimelinePage], [useSearch], [useStatus], [Header], [CardGrid],
    [ScreenshotModal], [StatsPage]) and the properties of their state
    transitions.

    Conventions of the embedding.
    - A component's [useState] cells are the fields of a record; a setter is
      a function on the enclosing world.
    - An [async] function is split at its [await]: the synchronous prefix
      carries the source name ([fetchEntries], [search], [fetchStatus]) and
      ends by recording the request as sent and parking the continuation;
      the part after the [await] is the [_resume] function, run when the
      request settles.
    - An event handler is the closure of a render: it reads the state
      cells as that render saw them, while its setters act on the current
      cells. The handler functions of a component take the world as their
      render saw it; for the timeline page, module [Stale] adds the render
      as an event of its own, so that a handler can run before the page
      has rendered again. *)

From Stdlib Require Import String Ascii ZArith NArith Bool List Lia.
From Stdlib Require QArith_base.
Import ListNotations.

Set Implicit Arguments.

(** ** JavaScript values *)

Module Js.

(** A JavaScript string is a sequence of UTF-16 code units. *)
Definition jsstring := list N.

Definition str (s : string) : jsstring :=
  map N_of_ascii (list_ascii_of_string s).

(** Code units removed by [String.prototype.trim]: WhiteSpace and
    LineTerminator of ECMAScript. *)
Definition isWhiteSpace (c : N) : bool :=
  (existsb (N.eqb c)
     [0x09; 0x0A; 0x0B; 0x0C; 0x0D; 0x20; 0xA0; 0x1680; 0x2028; 0x2029;
      0x202F; 0x205F; 0x3000; 0xFEFF]
   || ((0x2000 <=? c) && (c <=? 0x200A)))%N.

Fixpoint trimStart (s : jsstring) : jsstring :=
  match s with
  | c :: s' => if isWhiteSpace c then trimStart s' else s
  | [] => []
  end.

Definition trimEnd (s : jsstring) : jsstring := rev (trimStart (rev s)).

Definition trim (s : jsstring) : jsstring := trimEnd (trimStart s).

Definition eqb (s1 s2 : jsstring) : bool :=
  if list_eq_dec N.eq_dec s1 s2 then true else false.

(** Truthiness of a string: non-empty. *)
Definition truthy (s : jsstring) : bool :=
  match s with [] => false | _ :: _ => true end.

(** An [Error] instance, with its message. *)
Record Error := mkError { message : jsstring }.

(** What a [catch] clause receives: an [Error] instance or some other
    thrown value. *)
Inductive thrown :=
| ThrownError (e : Error)
| ThrownOther.

(** [err instanceof Error ? err : new Error(fallback)] *)
Definition asError (err : thrown) (fallback : string) : Error :=
  match err with
  | ThrownError e => e
  | ThrownOther => mkError (str fallback)
  end.

(** How an awaited promise settles. *)
Inductive outcome (A : Type) :=
| Resolved (value : A)
| Rejected (reason : thrown).

Arguments Rejected {A} reason.

End Js.

Import Js.

(** ** Payload types ([types/index.ts]) *)

Record Entry := mkEntry {
  id : Z;
  app : jsstring;
  title : jsstring;
  text : jsstring;
  timestamp : Z;
  screenshot_url : jsstring;
  formatted_time : jsstring;
  relative_time : jsstring;
  tags : list jsstring
}.

(** [SearchResult extends Entry]; the score is the JSON number received,
    which the client never computes with. *)
Record SearchResult := mkSearchResult {
  sr_entry : Entry;
  similarity_score : QArith_base.Q
}.

Record AppStats := mkAppStats {
  name : jsstring;
  count : Z;
  category : option jsstring
}.

Record HourlyActivity := mkHourly {
  hour : Z;
  hcount : Z
}.

Record PaginatedResponse := mkPage {
  pr_entries : list Entry;
  pr_total : Z;
  pr_page : Z;
  pr_limit : Z;
  has_more : bool
}.

Record SearchResponse := mkSearchResponse {
  sq_query : jsstring;
  sq_results : list SearchResult;
  sq_total : Z
}.

Inductive RecorderStatus := status_active | status_inactive.

Record StatusResponse := mkStatus {
  status_field : RecorderStatus;
  recording : bool;
  paused : bool;
  last_capture : option Z;
  version : jsstring
}.

(** ** Transport ([api/client.ts])

    Each exported function issues exactly one GET; the model records which
    one, with the arguments it was called with. *)

Inductive Request :=
| getEntries (page limit : Z)
| searchEntries (query : jsstring) (limit : Z)
| getStats
| getStatus.

(** ** Requests in flight

    [sent] is the log of every request issued, oldest first; a request's
    identifier is its position in the log.  [pending] holds, for each
    request that has not settled, the locals of the suspended caller. *)

Module Net.

Section Net.
Variable K : Type.

Record t := mk {
  sent : list Request;
  pending : list (nat * K)
}.

Definition empty : t := mk [] [].

Definition next_id (n : t) : nat := length (sent n).

Definition issue (r : Request) (k : K) (n : t) : t :=
  mk (sent n ++ [r]) (pending n ++ [(next_id n, k)]).

(** Remove the suspended caller of request [i], if it is still waiting. *)
Fixpoint take (i : nat) (l : list (nat * K)) : option (K * list (nat * K)) :=
  match l with
  | [] => None
  | (j, k) :: l' =>
      if Nat.eqb i j then Some (k, l')
      else match take i l' with
           | Some (k', rest) => Some (k', (j, k) :: rest)
           | None => None
           end
  end.

End Net.

Arguments empty {K}.

End Net.

(** Sequencing of state updates, in source order. *)
Definition seq {W : Type} (a b : W -> W) : W -> W := fun w => b (a w).
Notation "a ;; b" := (seq a b) (at level 61, left associativity).
Definition skip {W : Type} : W -> W := fun w => w.

(** ** Entry feed ([pages/TimelinePage.tsx])

    The load-more button takes [loadMore] from the latest render, and the
    scroll effect lists [loadingMore], [hasMore] and [page] as dependencies,
    so [handleScroll] is registered again after every render that changed
    one of them. In this module a handler is applied to the world its
    render saw, and [step] and [run] describe the page when it renders
    again after every event. Module [Stale] below drops that assumption. *)

Module Timeline.

Record State := mkState {
  entries : list Entry;
  loading : bool;
  page : Z;
  hasMore : bool;
  loadingMore : bool
}.

(** Arguments of a suspended [fetchEntries] call. *)
Record Call := mkCall {
  pageNum : Z;
  append : bool
}.

Record World := mkWorld {
  state : State;
  net : Net.t Call;
  console : list thrown
}.

Definition Act := World -> World.

Definition upd (f : State -> State) : Act :=
  fun w => mkWorld (f (state w)) (net w) (console w).

Definition setEntries (f : list Entry -> list Entry) : Act :=
  upd (fun s => mkState (f (entries s)) (loading s) (page s) (hasMore s) (loadingMore s)).
Definition setLoading (b : bool) : Act :=
  upd (fun s => mkState (entries s) b (page s) (hasMore s) (loadingMore s)).
Definition setPage (p : Z) : Act :=
  upd (fun s => mkState (entries s) (loading s) p (hasMore s) (loadingMore s)).
Definition setHasMore (b : bool) : Act :=
  upd (fun s => mkState (entries s) (loading s) (page s) b (loadingMore s)).
Definition setLoadingMore (b : bool) : Act :=
  upd (fun s => mkState (entries s) (loading s) (page s) (hasMore s) b).

Definition console_error (err : thrown) : Act :=
  fun w => mkWorld (state w) (net w) (console w ++ [err]).

Definition await (r : Request) (k : Call) : Act :=
  fun w => mkWorld (state w) (Net.issue r k (net w)) (console w).

(** [fetchEntries(pageNum, append)] up to its [await]. *)
Definition fetchEntries (pageNum : Z) (append : bool) : Act :=
  (if (pageNum =? 1)%Z then setLoading true else setLoadingMore true) ;;
  await (getEntries pageNum 20) (mkCall pageNum append).

(** [fetchEntries] from the point where [getEntries] settles: the rest of
    the [try], the [catch], the [finally]. *)
Definition fetchEntries_resume (k : Call) (o : outcome PaginatedResponse) : Act :=
  match o with
  | Resolved data =>
      (if append k
       then setEntries (fun prev => prev ++ pr_entries data)
       else setEntries (fun _ => pr_entries data)) ;;
      setHasMore (has_more data)
  | Rejected error => console_error error
  end ;;
  setLoading false ;;
  setLoadingMore false.

(** State of a freshly mounted page: the [useState] initial values. *)
Definition initial : World :=
  mkWorld (mkState [] true 1 false false) Net.empty [].

(** The mount effect: [fetchEntries(1)]. *)
Definition mount : World := fetchEntries 1 false initial.

Definition loadMore : Act :=
  fun w =>
    if negb (loadingMore (state w)) && hasMore (state w) then
      let nextPage := (page (state w) + 1)%Z in
      (setPage nextPage ;; fetchEntries nextPage true) w
    else w.

(** The element found by [document.querySelector('.overflow-y-auto')],
    with its measures in whole pixels. *)
Record ScrollContainer := mkScroll {
  scrollTop : Z;
  scrollHeight : Z;
  clientHeight : Z
}.

Definition handleScroll (scrollContainer : option ScrollContainer) : Act :=
  fun w =>
    match scrollContainer with
    | None => w
    | Some c =>
        if (scrollHeight c - scrollTop c - clientHeight c <? 200)%Z
           && negb (loadingMore (state w)) && hasMore (state w)
        then loadMore w
        else w
    end.

(** What can happen to a mounted page. *)
Inductive Event :=
| ClickLoadMore
| Scroll (scrollContainer : option ScrollContainer)
| Settle (i : nat) (o : outcome PaginatedResponse).

Definition settle (i : nat) (o : outcome PaginatedResponse) : Act :=
  fun w =>
    match Net.take i (Net.pending (net w)) with
    | Some (k, rest) =>
        fetchEntries_resume k o
          (mkWorld (state w) (Net.mk (Net.sent (net w)) rest) (console w))
    | None => w
    end.

Definition step (e : Event) : Act :=
  match e with
  | ClickLoadMore => loadMore
  | Scroll c => handleScroll c
  | Settle i o => settle i o
  end.

Definition run (evs : list Event) (w : World) : World :=
  fold_left (fun w e => step e w) evs w.

(** [e] is not the settling of request [i]. *)
Definition other_than (i : nat) (e : Event) : Prop :=
  match e with
  | Settle j _ => j <> i
  | _ => True
  end.

(** [loadMore]'s guard, as a proposition. *)
Definition may_load (w : World) : Prop :=
  loadingMore (state w) = false /\ hasMore (state w) = true.

(** At most one request is in flight, and while one is, the guard of
    [loadMore] is closed; pages are numbered from 1. *)
Definition quiet (w : World) : Prop :=
  (1 <= page (state w))%Z /\
  match Net.pending (net w) with
  | [] => True
  | [_] => hasMore (state w) = false \/ loadingMore (state w) = true
  | _ => False
  end.

(** A response that brings nothing new to the call [k] suspended in [w]:
    no entries for an appending call, the entries already shown for a
    replacing one, and the current [hasMore]. *)
Definition nothing_new (w : World) (k : Call) : PaginatedResponse :=
  mkPage (if append k then [] else entries (state w))
         0 (pageNum k) 20 (hasMore (state w)).

End Timeline.

(** ** Search ([hooks/useSearch.ts]) *)

Module Search.

Record State := mkState {
  results : list SearchResult;
  loading : bool;
  error : option Error;
  query : jsstring
}.

Record World := mkWorld {
  state : State;
  net : Net.t unit
}.

Definition Act := World -> World.

Definition upd (f : State -> State) : Act :=
  fun w => mkWorld (f (state w)) (net w).

Definition setResults (r : list SearchResult) : Act :=
  upd (fun s => mkState r (loading s) (error s) (query s)).
Definition setLoading (b : bool) : Act :=
  upd (fun s => mkState (results s) b (error s) (query s)).
Definition setError (e : option Error) : Act :=
  upd (fun s => mkState (results s) (loading s) e (query s)).
Definition setQuery (q : jsstring) : Act :=
  upd (fun s => mkState (results s) (loading s) (error s) q).

Definition await (r : Request) : Act :=
  fun w => mkWorld (state w) (Net.issue r tt (net w)).

(** The [useState] initial values. *)
Definition initial : World :=
  mkWorld (mkState [] false None []) Net.empty.

(** [search(searchQuery, limit)] up to its [await]; the blank case returns
    before any request. *)
Definition search (searchQuery : jsstring) (limit : Z) : Act :=
  if negb (truthy (trim searchQuery)) then
    setResults [] ;;
    setQuery []
  else
    setLoading true ;;
    setError None ;;
    setQuery searchQuery ;;
    await (searchEntries searchQuery limit).

(** [search] from the point where [searchEntries] settles. *)
Definition search_resume (o : outcome SearchResponse) : Act :=
  match o with
  | Resolved data => setResults (sq_results data)
  | Rejected err =>
      setError (Some (asError err "Search failed")) ;;
      setResults []
  end ;;
  setLoading false.

Definition clear : Act :=
  setResults [] ;;
  setQuery [] ;;
  setError None.

Inductive Event :=
| CallSearch (searchQuery : jsstring) (limit : Z)
| CallClear
| Settle (i : nat) (o : outcome SearchResponse).

Definition settle (i : nat) (o : outcome SearchResponse) : Act :=
  fun w =>
    match Net.take i (Net.pending (net w)) with
    | Some (_, rest) =>
        search_resume o (mkWorld (state w) (Net.mk (Net.sent (net w)) rest))
    | None => w
    end.

Definition step (e : Event) : Act :=
  match e with
  | CallSearch q limit => search q limit
  | CallClear => clear
  | Settle i o => settle i o
  end.

Definition run (evs : list Event) (w : World) : World :=
  fold_left (fun w e => step e w) evs w.

(** A settling of some request other than [i]. *)
Definition settles_other (i : nat) (e : Event) : Prop :=
  match e with
  | Settle j _ => j <> i
  | _ => False
  end.

(** Request [i] has not settled yet. *)
Definition waiting (i : nat) (w : World) : Prop :=
  In i (map fst (Net.pending (net w))).

End Search.

(** ** Recorder status ([hooks/useStats.ts], [useStatus]) *)

Module Status.

Record State := mkState {
  status : option StatusResponse;
  loading : bool
}.

Record World := mkWorld {
  state : State;
  net : Net.t unit;
  interval : bool    (* the 30 s timer is armed *)
}.

Definition Act := World -> World.

Definition upd (f : State -> State) : Act :=
  fun w => mkWorld (f (state w)) (net w) (interval w).

Definition setStatus (s : option StatusResponse) : Act :=
  upd (fun st => mkState s (loading st)).
Definition setLoading (b : bool) : Act :=
  upd (fun st => mkState (status st) b).

Definition await (r : Request) : Act :=
  fun w => mkWorld (state w) (Net.issue r tt (net w)) (interval w).

Definition setInterval : Act :=
  fun w => mkWorld (state w) (net w) true.
Definition clearInterval : Act :=
  fun w => mkWorld (state w) (net w) false.

(** [fetchStatus()] up to its [await]. *)
Definition fetchStatus : Act := await getStatus.

(** [fetchStatus] from the point where [getStatus] settles; the [catch]
    block is empty. *)
Definition fetchStatus_resume (o : outcome StatusResponse) : Act :=
  match o with
  | Resolved data => setStatus (Some data)
  | Rejected _ => skip
  end ;;
  setLoading false.

Definition initial : World :=
  mkWorld (mkState None true) Net.empty false.

(** The mount effect and its cleanup. *)
Definition mount : World := (fetchStatus ;; setInterval) initial.
Definition unmount : Act := clearInterval.

(** The three callers of [fetchStatus]. *)
Inductive Trigger := Initial | Tick | Refetch.

Inductive Event :=
| Fire (t : Trigger)
| Settle (i : nat) (o : outcome StatusResponse)
| Unmount.

Definition fire (t : Trigger) : Act :=
  fun w =>
    match t with
    | Initial => (fetchStatus ;; setInterval) w
    | Tick => if interval w then fetchStatus w else w
    | Refetch => fetchStatus w
    end.

Definition settle (i : nat) (o : outcome StatusResponse) : Act :=
  fun w =>
    match Net.take i (Net.pending (net w)) with
    | Some (_, rest) =>
        fetchStatus_resume o
          (mkWorld (state w) (Net.mk (Net.sent (net w)) rest) (interval w))
    | None => w
    end.

Definition step (e : Event) : Act :=
  match e with
  | Fire t => fire t
  | Settle i o => settle i o
  | Unmount => unmount
  end.

Definition run (evs : list Event) (w : World) : World :=
  fold_left (fun w e => step e w) evs w.

(** Request [i] has not settled yet. *)
Definition waiting (i : nat) (w : World) : Prop :=
  In i (map fst (Net.pending (net w))).

(** [e] is not the settling of request [i]. *)
Definition other_than (i : nat) (e : Event) : Prop :=
  match e with
  | Settle j _ => j <> i
  | _ => True
  end.

(** [t] does call [fetchStatus] in [w]: the interval only ticks while armed. *)
Definition fires (t : Trigger) (w : World) : Prop :=
  t = Tick -> interval w = true.

End Status.

(** ** Header ([components/layout/Header.tsx]) *)

Module Header.

(** The three values accepted by [StatusIndicator]. *)
Inductive Indicator := Active | Paused | Inactive.

(** [status?.field] in a boolean position: [undefined] is falsy. *)
Definition opt (field : StatusResponse -> bool) (status : option StatusResponse) : bool :=
  match status with
  | Some s => field s
  | None => false
  end.

(** [status?.recording ? 'active' : status?.paused ? 'paused' : 'inactive'] *)
Definition indicator (status : option StatusResponse) : Indicator :=
  if opt recording status then Active
  else if opt paused status then Paused
  else Inactive.

(** [`MCP v${status?.version || '1.0.0'}`] *)
Definition badge (status : option StatusResponse) : jsstring :=
  str "MCP v" ++
  match status with
  | Some s => if truthy (version s) then version s else str "1.0.0"
  | None => str "1.0.0"
  end.

(** Everything the header shows of the poller's state. *)
Definition view (w : Status.World) : jsstring * Indicator :=
  (badge (Status.status (Status.state w)),
   indicator (Status.status (Status.state w))).

End Header.

(** ** Selection and detail modal ([components/cards/CardGrid.tsx],
       [components/common/ScreenshotModal.tsx]) *)

Module Modal.

(** The part of the document the modal touches:
    [document.body.style.overflow] and the [keydown] listeners registered
    on [document], each named by the effect run that created it. *)
Record Dom := mkDom {
  body_overflow : jsstring;
  keydown : list nat
}.

(** [selectedEntry] is the state cell of [CardGrid]; [cleanup] is the effect
    run of the mounted [ScreenshotModal] whose cleanup is outstanding
    ([None] while the modal is not mounted); [runs] counts effect runs. *)
Record World := mkWorld {
  selectedEntry : option Entry;
  dom : Dom;
  cleanup : option nat;
  runs : nat
}.

Definition Act := World -> World.

Definition isOpen (w : World) : bool :=
  match selectedEntry w with Some _ => true | None => false end.

Definition addEventListener (h : nat) (d : Dom) : Dom :=
  mkDom (body_overflow d) (keydown d ++ [h]).
Definition removeEventListener (h : nat) (d : Dom) : Dom :=
  mkDom (body_overflow d) (filter (fun h' => negb (Nat.eqb h h')) (keydown d)).
Definition set_overflow (v : string) (d : Dom) : Dom :=
  mkDom (str v) (keydown d).

(** Body of the [useEffect] callback, for the effect run [h]. *)
Definition effect_body (h : nat) (isOpen : bool) (d : Dom) : Dom :=
  if isOpen then set_overflow "hidden" (addEventListener h d) else d.

(** The function the effect returns. *)
Definition effect_cleanup (h : nat) (d : Dom) : Dom :=
  set_overflow "unset" (removeEventListener h d).

Definition run_effect : Act :=
  fun w =>
    mkWorld (selectedEntry w) (effect_body (runs w) (isOpen w) (dom w))
            (Some (runs w)) (S (runs w)).

Definition run_cleanup : Act :=
  fun w =>
    match cleanup w with
    | Some h => mkWorld (selectedEntry w) (effect_cleanup h (dom w)) None (runs w)
    | None => w
    end.

(** [CardGrid] renders again: [onClose] is a new closure, so the effect's
    dependencies changed; the previous cleanup runs, then the effect. *)
Definition rerender : Act :=
  fun w =>
    match cleanup w with
    | Some _ => (run_cleanup ;; run_effect) w
    | None => w
    end.

Definition setSelectedEntry (v : option Entry) : Act :=
  (fun w => mkWorld v (dom w) (cleanup w) (runs w)) ;; rerender.

(** First render of the grid with the modal in it, on document [d]. *)
Definition mount (d : Dom) : World :=
  run_effect (mkWorld None d None 0).

(** The modal leaves the tree (the grid shows its skeleton or its empty
    message, or the page goes away). *)
Definition unmount : Act := run_cleanup.

(** A card's [onClick]. *)
Definition select (e : Entry) : Act := setSelectedEntry (Some e).

(** The modal's [onClose]. *)
Definition onClose : Act := setSelectedEntry None.

(** A [keydown] on the document: every registered [handleEscape] runs. *)
Definition keydown_event (key : jsstring) : Act :=
  fun w =>
    match keydown (dom w) with
    | [] => w
    | _ :: _ => if eqb key (str "Escape") then onClose w else w
    end.

(** The ways out of an open modal. *)
Inductive Exit := CloseButton | BackdropClick | EscapeKey | Teardown.

Definition dismiss (p : Exit) : Act :=
  match p with
  | CloseButton => onClose
  | BackdropClick => onClose
  | EscapeKey => keydown_event (str "Escape")
  | Teardown => unmount
  end.

(** Background scrolling is suppressed when the body's inline style says
    [overflow: hidden]. *)
Definition suppressed (w : World) : bool :=
  eqb (body_overflow (dom w)) (str "hidden").

End Modal.

(** ** Statistics page ([pages/StatsPage.tsx]) *)

Module Stats.

Local Open Scope Z_scope.

(** [x || 1] on a number. *)
Definition or1 (x : Z) : Z := if x =? 0 then 1 else x.

(** The [maxCount] passed to every [AppBar]: [stats.apps[0]?.count || 1]. *)
Definition apps_maxCount (apps : list AppStats) : Z :=
  match apps with
  | a :: _ => or1 (count a)
  | [] => 1
  end.

(** The bars drawn: [stats.apps.slice(0, 10)]. *)
Definition top_apps (apps : list AppStats) : list AppStats := firstn 10 apps.

(** [Math.max(...data.map((d) => d.count), 1)] in [HourlyActivityChart]. *)
Definition hourly_maxCount (data : list HourlyActivity) : Z :=
  fold_right Z.max 1 (map hcount data).

(** [data.find((d) => d.hour === hour)?.count || 0] *)
Definition hourly_count (data : list HourlyActivity) (h : Z) : Z :=
  match find (fun d => hour d =? h) data with
  | Some d => hcount d
  | None => 0
  end.

Definition isWorkHour (h : Z) : bool := (9 <=? h) && (h <=? 17).

(** [d] is the largest of [counts], and at least 1. *)
Definition floored_max (counts : list Z) (d : Z) : Prop :=
  1 <= d /\ Forall (fun c => c <= d) counts /\ (d = 1 \/ In d counts).

(** No app has a larger count than the first one, as when the backend
    lists the apps by non-increasing count. *)
Definition first_is_largest (apps : list AppStats) : Prop :=
  match apps with
  | a :: rest => Forall (fun b => count b <= count a) rest
  | [] => True
  end.

End Stats.

(** ** Card grid ([components/cards/CardGrid.tsx]): what is drawn *)

Module Grid.

Inductive View :=
| Skeletons (n : nat)
| Message (text : jsstring)
| Cards (entries : list Entry).

(** The three returns of [CardGrid]; the last one also holds the modal. *)
Definition CardGrid (entries : list Entry) (loading : bool)
                    (emptyMessage : option jsstring) : View :=
  if loading then Skeletons 8
  else if Nat.eqb (length entries) 0 then
    Message (match emptyMessage with
             | Some m => if truthy m then m else str "No entries found"
             | None => str "No entries found"
             end)
  else Cards entries.

End Grid.

(** ** Timeline page: what is drawn, and the shape of its reachable states *)

Module TimelinePage.

Import Timeline.

Record View := mkView {
  grid : Grid.View;
  spinner : bool;     (* the "Loading more..." indicator *)
  button : bool       (* the "Load More" button *)
}.

Definition render (w : World) : View :=
  mkView
    (Grid.CardGrid (entries (state w)) (loading (state w))
       (Some (str "No observations yet. Start recording to see your activity here.")))
    (loadingMore (state w))
    (hasMore (state w) && negb (loadingMore (state w))).

(** The scroll position test of [handleScroll]. *)
Definition near_bottom (c : ScrollContainer) : bool :=
  (scrollHeight c - scrollTop c - clientHeight c <? 200)%Z.

(** Requests for pages 1 to [n], 20 entries each, in order. *)
Definition pages_upto (n : Z) : list Request :=
  map (fun p => getEntries (Z.of_nat p) 20) (List.seq 1 (Z.to_nat n)).

(** Nothing in flight. *)
Definition idle (w : World) : Prop :=
  Net.pending (net w) = []
  /\ loading (state w) = false /\ loadingMore (state w) = false.

(** The mount request is in flight. *)
Definition first_load (w : World) : Prop :=
  Net.pending (net w) = [(0%nat, mkCall 1 false)]
  /\ loading (state w) = true /\ loadingMore (state w) = false
  /\ hasMore (state w) = false /\ entries (state w) = []
  /\ page (state w) = 1%Z.

(** The request for the current [page], the latest sent, is in flight. *)
Definition loading_more (w : World) : Prop :=
  Net.pending (net w) =
    [(Nat.pred (length (Net.sent (net w))), mkCall (page (state w)) true)]
  /\ loading (state w) = false /\ loadingMore (state w) = true
  /\ hasMore (state w) = true /\ (1 < page (state w))%Z.

Definition coherent (w : World) : Prop :=
  (1 <= page (state w))%Z
  /\ Net.sent (net w) = pages_upto (page (state w))
  /\ (idle w \/ first_load w \/ loading_more w).

End TimelinePage.

(** ** Search page ([pages/SearchPage.tsx]) *)

Module SearchPage.

Record World := mkWorld {
  inputValue : jsstring;
  hook : Search.World
}.

Definition Act := World -> World.

Definition setInputValue (v : jsstring) : Act :=
  fun w => mkWorld v (hook w).

(** A call into the [useSearch] hook. *)
Definition call (a : Search.World -> Search.World) : Act :=
  fun w => mkWorld (inputValue w) (a (hook w)).

Definition initial : World := mkWorld [] Search.initial.

(** [search] is called with its default [limit]. *)
Definition handleSubmit : Act :=
  fun w =>
    if truthy (trim (inputValue w))
    then call (Search.search (trim (inputValue w)) 20) w
    else w.

Definition handleClear : Act :=
  setInputValue [] ;; call Search.clear.

(** The request of the hook settles. *)
Definition settle (i : nat) (o : outcome SearchResponse) : Act :=
  call (Search.settle i o).

(** The line under the form: "Found [found] result(s) for [for_query]". *)
Record Summary := mkSummary {
  found : nat;
  plural : bool;
  for_query : jsstring
}.

Inductive Body :=
| Failed (text : jsstring)
| Prompt
| Results (g : Grid.View).

Record View := mkView {
  clear_button : bool;
  summary : option Summary;
  body : Body
}.

Definition quote : jsstring := [34%N].

Definition render (w : World) : View :=
  let s := Search.state (hook w) in
  let n := length (Search.results s) in
  mkView
    (truthy (inputValue w))
    (if truthy (Search.query s) && negb (Search.loading s)
     then Some (mkSummary n (negb (Nat.eqb n 1)) (Search.query s))
     else None)
    (match Search.error s with
     | Some e => Failed (str "Search failed: " ++ message e)
     | None =>
         if negb (truthy (Search.query s)) && negb (Search.loading s)
         then Prompt
         else Results
                (Grid.CardGrid (map sr_entry (Search.results s)) (Search.loading s)
                   (if truthy (Search.query s)
                    then Some (str "No results found for " ++ quote
                               ++ Search.query s ++ quote)
                    else None))
     end).

End SearchPage.

(** ** Poller events *)

Module StatusRun.

Import Status.

(** An interval tick, a settling or the unmount: what can still happen
    without the user asking for a refresh. *)
Definition passive (e : Event) : Prop :=
  match e with
  | Fire Tick => True
  | Settle _ _ => True
  | Unmount => True
  | Fire _ => False
  end.

(** No request has settled yet: requests 0, 1, ... are all waiting. *)
Definition none_settled (w : World) : Prop :=
  map fst (Net.pending (net w)) = List.seq 0 (length (Net.sent (net w))).

(** Loading lasts exactly until a first request settles, and until then
    no status is held. *)
Definition loading_means_unsettled (w : World) : Prop :=
  (loading (state w) = true /\ none_settled w /\ status (state w) = None)
  \/ (loading (state w) = false
      /\ (length (Net.pending (net w)) < length (Net.sent (net w)))%nat).

End StatusRun.

(** ** Statistics ([hooks/useStats.ts], [useStats]; [pages/StatsPage.tsx]) *)

Inductive MemoryStatus := memory_active | memory_paused | memory_inactive.

Record SystemStats := mkStats {
  total_entries : Z;
  storage_used_mb : QArith_base.Q;
  first_entry : option Z;
  last_entry : option Z;
  apps : list AppStats;
  activity_by_hour : list HourlyActivity;
  memory_status : MemoryStatus;
  stats_version : jsstring
}.

Module UseStats.

Record State := mkState {
  stats : option SystemStats;
  loading : bool;
  error : option Error
}.

Record World := mkWorld {
  state : State;
  net : Net.t unit
}.

Definition Act := World -> World.

Definition upd (f : State -> State) : Act :=
  fun w => mkWorld (f (state w)) (net w).

Definition setStats (v : option SystemStats) : Act :=
  upd (fun s => mkState v (loading s) (error s)).
Definition setLoading (b : bool) : Act :=
  upd (fun s => mkState (stats s) b (error s)).
Definition setError (e : option Error) : Act :=
  upd (fun s => mkState (stats s) (loading s) e).

Definition await (r : Request) : Act :=
  fun w => mkWorld (state w) (Net.issue r tt (net w)).

(** [fetchStats()] up to its [await]. *)
Definition fetchStats : Act :=
  setLoading true ;;
  setError None ;;
  await getStats.

(** [fetchStats] from the point where [getStats] settles. *)
Definition fetchStats_resume (o : outcome SystemStats) : Act :=
  match o with
  | Resolved data => setStats (Some data)
  | Rejected err => setError (Some (asError err "Failed to fetch stats"))
  end ;;
  setLoading false.

Definition initial : World := mkWorld (mkState None true None) Net.empty.

(** The mount effect. *)
Definition mount : World := fetchStats initial.

Inductive Event :=
| Refetch
| Settle (i : nat) (o : outcome SystemStats).

Definition settle (i : nat) (o : outcome SystemStats) : Act :=
  fun w =>
    match Net.take i (Net.pending (net w)) with
    | Some (_, rest) =>
        fetchStats_resume o (mkWorld (state w) (Net.mk (Net.sent (net w)) rest))
    | None => w
    end.

Definition step (e : Event) : Act :=
  match e with
  | Refetch => fetchStats
  | Settle i o => settle i o
  end.

Definition run (evs : list Event) (w : World) : World :=
  fold_left (fun w e => step e w) evs w.

Definition waiting (i : nat) (w : World) : Prop :=
  In i (map fst (Net.pending (net w))).

End UseStats.

Module StatsPage.

Local Open Scope Z_scope.

Definition APP_COLORS : list jsstring :=
  map str ["#6366f1"; "#8b5cf6"; "#ec4899"; "#f43f5e"; "#f97316";
           "#eab308"; "#22c55e"; "#14b8a6"; "#06b6d4"; "#3b82f6"]%string.

(** Props of one [AppBar]; [color] is [None] for [undefined]. *)
Record AppBarProps := mkBar {
  bar_name : jsstring;
  bar_count : Z;
  bar_maxCount : Z;
  bar_color : option jsstring
}.

(** [stats.apps.slice(0, 10).map((app, index) => <AppBar ... />)] *)
Definition app_bars (apps : list AppStats) : list AppBarProps :=
  map (fun ia : nat * AppStats =>
         mkBar (name (snd ia)) (count (snd ia)) (Stats.apps_maxCount apps)
               (nth_error APP_COLORS (fst ia mod length APP_COLORS)))
      (combine (List.seq 0 (length (Stats.top_apps apps))) (Stats.top_apps apps)).

(** One column of [HourlyActivityChart]. *)
Record HourBar := mkHourBar {
  bar_hour : Z;
  hour_count : Z;
  work_hour : bool;
  labelled : bool
}.

(** [Array.from({ length: 24 }, (_, hour) => ...)] *)
Definition hourly_bars (data : list HourlyActivity) : list HourBar :=
  map (fun h : nat =>
         let hour := Z.of_nat h in
         mkHourBar hour (Stats.hourly_count data hour) (Stats.isWorkHour hour)
                   (hour mod 6 =? 0))
      (List.seq 0 24).

Inductive View :=
| Spinner
| FailedNotice
| Content (stats : SystemStats).

(** The three returns of [StatsPage]. *)
Definition render (w : UseStats.World) : View :=
  let s := UseStats.state w in
  if UseStats.loading s then Spinner
  else match UseStats.error s, UseStats.stats s with
       | None, Some stats => Content stats
       | _, _ => FailedNotice
       end.

End StatsPage.

(** ** Modal events *)

Module ModalRun.

Import Modal.

Inductive Event :=
| Select (e : Entry)
| Close                  (* the close button or a click on the backdrop *)
| Key (key : jsstring).

Definition step (e : Event) : Act :=
  match e with
  | Select e => select e
  | Close => onClose
  | Key key => keydown_event key
  end.

Definition run (evs : list Event) (w : World) : World :=
  fold_left (fun w e => step e w) evs w.

(** The mounted modal owns exactly the listener of its last effect run
    while open, and none while closed. *)
Definition tidy (w : World) : Prop :=
  exists h,
    cleanup w = Some h
    /\ keydown (dom w) = (if isOpen w then [h] else [])
    /\ (isOpen w = true -> body_overflow (dom w) = str "hidden").

(** While the modal is closed, background scrolling is not suppressed. *)
Definition released (w : World) : Prop :=
  isOpen w = false -> suppressed w = false.

End ModalRun.

(** ** Query parameters of [getEntries] ([api/client.ts]) *)

Module Client.

Record EntriesParams := mkParams {
  page : option Z;
  limit : option Z;
  start_date : option Z;
  end_date : option Z;
  app_filter : option jsstring
}.

(** A value handed to [searchParams.set]: [Num n] stands for
    [n.toString()]. *)
Inductive ParamValue :=
| Num (n : Z)
| Str (s : jsstring).

(** [if (params.k) searchParams.set('k', params.k.toString())] for a
    number: 0 and [undefined] are falsy. *)
Definition set_number (key : string) (v : option Z) : list (jsstring * ParamValue) :=
  match v with
  | Some n => if (n =? 0)%Z then [] else [(str key, Num n)]
  | None => []
  end.

(** The same for a string: the empty string and [undefined] are falsy. *)
Definition set_string (key : string) (v : option jsstring) : list (jsstring * ParamValue) :=
  match v with
  | Some s => if truthy s then [(str key, Str s)] else []
  | None => []
  end.

(** The entries of [searchParams] when [getEntries] builds its URL. *)
Definition searchParams (params : EntriesParams) : list (jsstring * ParamValue) :=
  set_number "page" (page params) ++
  set_number "limit" (limit params) ++
  set_number "start_date" (start_date params) ++
  set_number "end_date" (end_date params) ++
  set_string "app" (app_filter params).

(** The request goes to the bare [/api/entries] when the query is empty. *)
Definition has_query (params : EntriesParams) : bool :=
  match searchParams params with [] => false | _ :: _ => true end.

(** The keys [getEntries] knows, in the order it sets them. *)
Definition keys : list jsstring :=
  map str ["page"; "limit"; "start_date"; "end_date"; "app"]%string.

(** A parameter that is absent, 0 or the empty string. *)
Definition falsy_number (v : option Z) : Prop := v = None \/ v = Some 0%Z.
Definition falsy_string (v : option jsstring) : Prop := v = None \/ v = Some [].

(** The value [v] is what a given, truthy parameter is sent as. *)
Definition number_sent (param : option Z) (v : ParamValue) : Prop :=
  exists n, param = Some n /\ n <> 0%Z /\ v = Num n.
Definition string_sent (param : option jsstring) (v : ParamValue) : Prop :=
  exists s, param = Some s /\ s <> [] /\ v = Str s.

End Client.

(** ** Timeline page between renders

    A handler registered by one render keeps that render's [loadingMore],
    [hasMore] and [page] until the page renders again and the scroll effect
    registers its successor: until then the guard of [loadMore] and the page
    number it computes are those of the old render, whatever the setters
    have done since. *)

Module Stale.

Import Timeline.

(** [loadMore] as the closure of a render that saw [seen]. *)
Definition loadMore_of (seen : State) : Act :=
  fun w =>
    if negb (loadingMore seen) && hasMore seen then
      let nextPage := (page seen + 1)%Z in
      (setPage nextPage ;; fetchEntries nextPage true) w
    else w.

(** [handleScroll] as the closure of a render that saw [seen]. *)
Definition handleScroll_of (seen : State)
                           (scrollContainer : option ScrollContainer) : Act :=
  fun w =>
    match scrollContainer with
    | None => w
    | Some c =>
        if (scrollHeight c - scrollTop c - clientHeight c <? 200)%Z
           && negb (loadingMore seen) && hasMore seen
        then loadMore_of seen w
        else w
    end.

(** The mounted page: its current cells and requests, and the state its
    registered handlers were created with. *)
Record Mounted := mkMounted {
  world : World;
  seen : State
}.

Inductive Event :=
| Click
| Scroll (scrollContainer : option ScrollContainer)
| Settle (i : nat) (o : outcome PaginatedResponse)
| Render.

Definition step (e : Event) (m : Mounted) : Mounted :=
  match e with
  | Click => mkMounted (loadMore_of (seen m) (world m)) (seen m)
  | Scroll c => mkMounted (handleScroll_of (seen m) c (world m)) (seen m)
  | Settle i o => mkMounted (settle i o (world m)) (seen m)
  | Render => mkMounted (world m) (state (world m))
  end.

Definition run (evs : list Event) (m : Mounted) : Mounted :=
  fold_left (fun m e => step e m) evs m.

(** After the first render and its effects: the handlers are those of the
    initial state, and the request for page 1 is in flight. *)
Definition mount : Mounted := mkMounted Timeline.mount (state Timeline.mount).

Definition of_event (e : Timeline.Event) : Event :=
  match e with
  | Timeline.ClickLoadMore => Click
  | Timeline.Scroll c => Scroll c
  | Timeline.Settle i o => Settle i o
  end.

(** The schedule in which the page renders again after every event. *)
Definition paced (evs : list Timeline.Event) : list Event :=
  flat_map (fun e => [of_event e; Render]) evs.

(** [l] goes on from [prev] by steps of 0 or 1. *)
Fixpoint climbs (prev : Z) (l : list Z) : Prop :=
  match l with
  | [] => True
  | p :: l' => (p = prev \/ p = (prev + 1)%Z) /\ climbs p l'
  end.

(** The requests sent ask for pages 1, [rest], 20 entries each, never
    skipping a page, and the last page asked for is the current [page]. *)
Definition asked (w : World) (rest : list Z) : Prop :=
  Net.sent (net w) = map (fun p => getEntries p 20) (1%Z :: rest)
  /\ climbs 1 rest
  /\ last rest 1%Z = page (state w).

(** Until the mount request settles. *)
Definition opening (m : Mounted) : Prop :=
  Net.pending (net (world m)) = [(0%nat, mkCall 1 false)]
  /\ loading (state (world m)) = true
  /\ hasMore (state (world m)) = false
  /\ hasMore (seen m) = false.

(** From then on. *)
Definition browsing (m : Mounted) : Prop :=
  loading (state (world m)) = false
  /\ Forall (fun ik : nat * Call => append (snd ik) = true)
            (Net.pending (net (world m)))
  /\ (loadingMore (state (world m)) = true -> Net.pending (net (world m)) <> []).

Definition sound (m : Mounted) : Prop :=
  (1 <= page (seen m))%Z
  /\ (page (state (world m)) = page (seen m)
      \/ page (state (world m)) = (page (seen m) + 1)%Z)
  /\ (exists rest, asked (world m) rest)
  /\ (opening m \/ browsing m).

(** [e] is not the settling of request [i]. *)
Definition other_than (i : nat) (e : Event) : Prop :=
  match e with
  | Settle j _ => j <> i
  | _ => True
  end.

(** [e] calls [loadMore] when the guard lets it: a click on the button, or
    a scroll event less than 200 pixels from the bottom. *)
Definition triggers (e : Event) : Prop :=
  match e with
  | Click => True
  | Scroll (Some c) => TimelinePage.near_bottom c = true
  | _ => False
  end.

(** [r] asks for a page after page [p]. *)
Definition asks_beyond (p : Z) (r : Request) : Prop :=
  match r with
  | getEntries q _ => (p < q)%Z
  | _ => False
  end.

End Stale.

(** ** Sample data, for evaluating the model on concrete runs *)

Module Sample.

Definition entryA : Entry :=
  mkEntry 101 (str "Code") (str "main.ts") (str "export default") 1700000300
          (str "/api/screenshots/101.webp") (str "10:05") (str "2m ago")
          [str "development"].
Definition entryB : Entry :=
  mkEntry 100 (str "Chrome") (str "Inbox") [] 1700000200
          (str "/api/screenshots/100.webp") (str "10:03") (str "4m ago")
          [str "browser"].
Definition entryC : Entry :=
  mkEntry 99 (str "Slack") [] (str "standup at ten") 1700000100
          (str "/api/screenshots/99.webp") (str "10:01") (str "6m ago")
          [str "communication"].
Definition entryD : Entry :=
  mkEntry 98 (str "Figma") (str "Mockups") [] 1700000000
          (str "/api/screenshots/98.webp") (str "10:00") (str "7m ago") [].

Definition page1 : PaginatedResponse := mkPage [entryA; entryB] 50 1 20 true.
Definition page2 : PaginatedResponse := mkPage [entryC; entryD] 50 2 20 false.

Definition http500 : thrown :=
  ThrownError (mkError (str "HTTP error! status: 500")).

Definition near_bottom : Timeline.ScrollContainer := Timeline.mkScroll 850 1600 700.

(** The feed after its first page arrived, with more to come. *)
Definition feed_loaded : list Timeline.Event :=
  [Timeline.Settle 0 (Resolved page1)].

Definition hitX : SearchResult := mkSearchResult entryC (QArith_base.Qmake 3 4).

Definition recorder_on : StatusResponse :=
  mkStatus status_active true false (Some 1700000300%Z) (str "1.2.0").
Definition recorder_paused : StatusResponse :=
  mkStatus status_inactive false true (Some 1700000300%Z) (str "1.2.0").

End Sample.

(** * Properties *)

(** ** Requests in flight *)

Section NetFacts.
Context {K : Type}.
Implicit Types (l rest : list (nat * K)) (i j : nat) (k : K).

Lemma take_some l i : In i (map fst l) -> exists k rest, Net.take i l = Some (k, rest).
Proof.
  induction l as [|[j k] l IH]; simpl; intros H; [contradiction|].
  destruct (Nat.eqb_spec i j) as [->|Hij]; [eauto|].
  destruct IH as (k' & rest & ->); [intuition congruence | eauto].
Qed.

(** Taking request [j] leaves every other request waiting. *)
Lemma take_keeps l i j k rest :
  Net.take j l = Some (k, rest) -> i <> j -> In i (map fst l) -> In i (map fst rest).
Proof.
  revert rest; induction l as [|[j' k'] l IH]; simpl; intros rest; [discriminate|].
  destruct (Nat.eqb_spec j j') as [->|Hj].
  - intros [= <- <-] Hi [H|H]; [congruence | exact H].
  - destruct (Net.take j l) as [[k'' rest']|] eqn:E; [|discriminate].
    intros [= <- <-] Hi [H|H]; simpl; [left; exact H | right; eauto].
Qed.

Lemma take_length l i k rest :
  Net.take i l = Some (k, rest) -> length l = S (length rest).
Proof.
  revert rest; induction l as [|[j k'] l IH]; simpl; intros rest; [discriminate|].
  destruct (Nat.eqb i j); [intros [= _ <-]; reflexivity|].
  destruct (Net.take i l) as [[k'' r']|]; [|discriminate].
  intros [= <- <-]. simpl. f_equal. apply IH. reflexivity.
Qed.

End NetFacts.

(** ** Entry feed *)

Section TimelineFacts.
Import Timeline.
Local Open Scope Z_scope.

Lemma quiet_mount : quiet mount.
Proof. unfold quiet; simpl. split; [lia | left; reflexivity]. Qed.

(** With the guard open, nothing is in flight. *)
Lemma quiet_idle w : quiet w -> may_load w -> Net.pending (net w) = [].
Proof.
  intros [_ H] [Hl Hm].
  destruct (Net.pending (net w)) as [|p [|q l]]; [reflexivity | | contradiction].
  destruct H; congruence.
Qed.

(** What [loadMore] does when its guard is open, on a page numbered from 1. *)
Lemma loadMore_fires w :
  1 <= page (state w) -> may_load w ->
  loadMore w =
  mkWorld (mkState (entries (state w)) (loading (state w)) (page (state w) + 1)
                   true true)
          (Net.issue (getEntries (page (state w) + 1) 20)
                     (mkCall (page (state w) + 1) true) (net w))
          (console w).
Proof.
  intros Hp [Hl Hm]. unfold loadMore. rewrite Hl, Hm. simpl.
  unfold seq, fetchEntries, seq.
  destruct (Z.eqb_spec (page (state w) + 1) 1) as [E|_]; [lia|].
  unfold setPage, setLoadingMore, await, upd; simpl. rewrite Hm. reflexivity.
Qed.

(** With the guard closed, both triggers leave the world as it is. *)
Lemma loadMore_blocked w :
  loadingMore (state w) = true \/ hasMore (state w) = false -> loadMore w = w.
Proof.
  intros H. unfold loadMore.
  destruct H as [-> | ->]; simpl; [reflexivity|].
  now rewrite andb_false_r.
Qed.

Lemma handleScroll_blocked w c :
  loadingMore (state w) = true \/ hasMore (state w) = false -> handleScroll c w = w.
Proof.
  intros H. destruct c as [c|]; simpl; [|reflexivity].
  destruct (_ && _ && _); [apply loadMore_blocked; exact H | reflexivity].
Qed.

Lemma handleScroll_cases w c : handleScroll c w = w \/ handleScroll c w = loadMore w.
Proof.
  destruct c as [c|]; simpl; [|left; reflexivity].
  destruct (_ && _ && _); [right|left]; reflexivity.
Qed.

Lemma settle_sent i o w : Net.sent (net (settle i o w)) = Net.sent (net w).
Proof.
  unfold settle. destruct (Net.take i _) as [[k rest]|]; [|reflexivity].
  destruct o as [data|err]; simpl; [destruct (append k)|]; reflexivity.
Qed.

Lemma quiet_loadMore w : quiet w -> quiet (loadMore w).
Proof.
  intros Hq. destruct (loadingMore (state w)) eqn:Hl.
  { rewrite loadMore_blocked; auto. }
  destruct (hasMore (state w)) eqn:Hm.
  2:{ rewrite loadMore_blocked; auto. }
  assert (Hg : may_load w) by (split; assumption).
  rewrite loadMore_fires; [|apply Hq|exact Hg].
  unfold quiet; simpl. rewrite (quiet_idle Hq Hg). simpl.
  split; [destruct Hq; lia | right; reflexivity].
Qed.

Lemma quiet_settle i o w : quiet w -> quiet (settle i o w).
Proof.
  intros [Hp Hq]. unfold settle.
  destruct (Net.pending (net w)) as [|[j k] [|q l]] eqn:E; simpl; try contradiction.
  - unfold quiet; rewrite E; auto.
  - destruct (Nat.eqb i j).
    + unfold quiet. split.
      * destruct o as [data|err]; simpl; [destruct (append k)|]; exact Hp.
      * destruct o as [data|err]; simpl; [destruct (append k)|]; exact I.
    + unfold quiet; rewrite E; auto.
Qed.

Lemma quiet_step e w : quiet w -> quiet (step e w).
Proof.
  intros Hq. destruct e as [|c|i o]; simpl.
  - apply quiet_loadMore, Hq.
  - destruct (handleScroll_cases w c) as [-> | ->]; [exact Hq | apply quiet_loadMore, Hq].
  - apply quiet_settle, Hq.
Qed.

Lemma quiet_run evs w : quiet w -> quiet (run evs w).
Proof.
  revert w; induction evs as [|e evs IH]; intros w Hq; simpl; [exact Hq|].
  apply IH, quiet_step, Hq.
Qed.

Lemma run_app evs1 evs2 w : run (evs1 ++ evs2) w = run evs2 (run evs1 w).
Proof. unfold run. apply fold_left_app. Qed.

End TimelineFacts.

Section TimelineClaims.
Import Timeline.
Local Open Scope Z_scope.

(** C1, at the input where the code departs from it. With the first page
    shown and the handlers of that render registered, two scroll events near
    the bottom arrive before the page renders again. Both pass the guard of
    the old render, so page 2 is requested twice, and when both requests
    resolve their entries are appended twice. The feed held 2 entries at
    each of the two calls; after the second completion it holds 6, not 2
    plus the 2 entries of the page. *)
Theorem stale_scroll_appends_twice :
  let shown :=
    Stale.run [Stale.Settle 0 (Resolved Sample.page1); Stale.Render] Stale.mount in
  let scrolled :=
    Stale.run [Stale.Scroll (Some Sample.near_bottom);
               Stale.Scroll (Some Sample.near_bottom)] shown in
  let once :=
    Stale.run [Stale.Render; Stale.Settle 1 (Resolved Sample.page2)] scrolled in
  let twice := Stale.step (Stale.Settle 2 (Resolved Sample.page2)) once in
  Stale.seen shown = state (Stale.world shown)
  /\ entries (state (Stale.world shown)) = [Sample.entryA; Sample.entryB]
  /\ entries (state (Stale.world scrolled)) = [Sample.entryA; Sample.entryB]
  /\ Net.sent (net (Stale.world scrolled)) =
       [getEntries 1 20; getEntries 2 20; getEntries 2 20]
  /\ Net.pending (net (Stale.world scrolled)) =
       [(1%nat, mkCall 2 true); (2%nat, mkCall 2 true)]
  /\ entries (state (Stale.world once)) =
       [Sample.entryA; Sample.entryB; Sample.entryC; Sample.entryD]
  /\ entries (state (Stale.world twice)) =
       [Sample.entryA; Sample.entryB; Sample.entryC; Sample.entryD;
        Sample.entryC; Sample.entryD]
  /\ length (entries (state (Stale.world twice))) = (2 + 4)%nat
  /\ page (state (Stale.world twice)) = 2.
Proof.
  intros shown scrolled once twice. repeat split.
Qed.



(** C3, as the page has it. For every [load()] or [loadMore()] whose
    request fails, the accumulated entries are left untouched, [page] and
    [hasMore] stay, both loading flags are lowered, the failure is written
    to the console and to no state cell (the state is the one an empty page
    repeating [hasMore] would have left), and no request is sent again. *)
Theorem fetch_failure_keeps_entries
  (w : World) (i : nat) (k : Call) (rest : list (nat * Call)) (err : thrown) :
  Net.take i (Net.pending (net w)) = Some (k, rest) ->
  let w' := settle i (Rejected err) w in
  entries (state w') = entries (state w)
  /\ page (state w') = page (state w)
  /\ hasMore (state w') = hasMore (state w)
  /\ loading (state w') = false
  /\ loadingMore (state w') = false
  /\ console w' = console w ++ [err]
  /\ state w' = state (settle i (Resolved (nothing_new w k)) w)
  /\ Net.sent (net w') = Net.sent (net w)
  /\ Net.pending (net w') = rest.
Proof.
  intros Ht w'. unfold w', settle. rewrite Ht. simpl.
  repeat split.
  destruct (state w) as [es l p h lm]; simpl.
  destruct (append k); simpl; [rewrite app_nil_r|]; reflexivity.
Qed.

Lemma fetch_failure_keeps_entries_witness :
  let w := run (Sample.feed_loaded ++ [ClickLoadMore]) mount in
  let w' := settle 1 (Rejected Sample.http500) w in
  Net.take 1 (Net.pending (net w)) = Some (mkCall 2 true, [])
  /\ entries (state w') = [Sample.entryA; Sample.entryB]
  /\ console w' = [Sample.http500]
  /\ Net.sent (net w') = [getEntries 1 20; getEntries 2 20]
  /\ Net.pending (net w') = [].
Proof.
  intros w w'.
  pose proof (@fetch_failure_keeps_entries w 1%nat (mkCall 2 true) []
                Sample.http500 eq_refl) as (He & _ & _ & _ & _ & Hc & _ & Hs & Hp).
  repeat split; assumption.
Defined.

(** C3, as stated, fails: after the mount request fails, the state of the
    feed is exactly the state a successful empty response leaves, so no
    error cell, and nothing computed from the state, tells the failure. *)
Lemma fetch_failure_not_in_state :
  let failed := settle 0 (Rejected Sample.http500) mount in
  let fine := settle 0 (Resolved (nothing_new mount (mkCall 1 false))) mount in
  state failed = state fine
  /\ ~ exists error_of : State -> option Error,
        error_of (state failed) <> None /\ error_of (state fine) = None.
Proof.
  intros failed fine.
  assert (E : state failed = state fine) by reflexivity.
  split; [exact E|].
  intros (error_of & Hf & Hs). rewrite E in Hf. contradiction.
Qed.


End TimelineClaims.

(** ** Search *)

Section SearchFacts.
Import Search.

Lemma blank_query_resets q limit w :
  trim q = [] ->
  search q limit w = mkWorld (mkState [] (loading (state w)) (error (state w)) []) (net w).
Proof. intros H. unfold search. rewrite H. reflexivity. Qed.

Lemma search_nonblank q limit w :
  trim q <> [] ->
  search q limit w =
  mkWorld (mkState (results (state w)) true None q)
          (Net.issue (searchEntries q limit) tt (net w)).
Proof.
  intros H. unfold search. destruct (trim q); [contradiction | reflexivity].
Qed.

Lemma settle_query i o w : query (state (settle i o w)) = query (state w).
Proof.
  unfold settle. destruct (Net.take i _) as [[u rest]|]; [|reflexivity].
  destruct o; reflexivity.
Qed.

Lemma settle_other_waiting i j o w : j <> i -> waiting i w -> waiting i (settle j o w).
Proof.
  unfold waiting, settle. intros Hj Hi.
  destruct (Net.take j _) as [[u rest]|] eqn:E; [|exact Hi].
  assert (In i (map fst rest)) by (eapply take_keeps; eauto).
  destruct o; assumption.
Qed.

Lemma settle_sent_search i o w : Net.sent (net (settle i o w)) = Net.sent (net w).
Proof.
  unfold settle. destruct (Net.take i _) as [[u rest]|]; [|reflexivity].
  destruct o; reflexivity.
Qed.

(** Settlings of other requests leave request [i] waiting, the query in
    place and the log of requests as it is. *)
Lemma others_settle i mid w :
  Forall (settles_other i) mid -> waiting i w ->
  waiting i (run mid w)
  /\ query (state (run mid w)) = query (state w)
  /\ Net.sent (net (run mid w)) = Net.sent (net w).
Proof.
  intros Hmid; revert w.
  induction Hmid as [|e mid He _ IH]; intros w Hw; [auto|].
  destruct e as [q l| |j o]; simpl in He; try contradiction.
  simpl. destruct (IH (settle j o w)) as (H1 & H2 & H3).
  - apply settle_other_waiting; assumption.
  - rewrite settle_query in H2. rewrite settle_sent_search in H3. auto.
Qed.

Lemma settle_rejected i err w :
  waiting i w ->
  state (settle i (Rejected err) w) =
  mkState [] false (Some (asError err "Search failed")) (query (state w)).
Proof.
  intros Hw. destruct (take_some _ _ Hw) as (u & rest & E).
  unfold settle. rewrite E. reflexivity.
Qed.

Lemma run_app_search evs1 evs2 w : run (evs1 ++ evs2) w = run evs2 (run evs1 w).
Proof. unfold run. apply fold_left_app. Qed.

End SearchFacts.

Section SearchClaims.
Import Search.

(** C4, at the input where the code departs from it. After a failed search
    for "meeting", [search("   ")] sends nothing and empties [results] and
    [query], but the error of the failed search stays, where [clear()]
    removes it: the two resulting states differ. *)
Theorem search_blank_vs_clear :
  let w := run [CallSearch (str "meeting") 20; Settle 0 (Rejected Sample.http500)] initial in
  let w' := search (str "   ") 20 w in
  trim (str "   ") = []
  /\ net w' = net w
  /\ results (state w') = []
  /\ query (state w') = []
  /\ error (state w') = Some (mkError (str "HTTP error! status: 500"))
  /\ error (state (clear w)) = None
  /\ state w' <> state (clear w).
Proof.
  intros w w'.
  assert (B : trim (str "   ") = []) by reflexivity.
  split; [exact B|].
  unfold w'. rewrite (@blank_query_resets (str "   ") 20 w B).
  repeat split. discriminate.
Qed.

(** C5. For every non-blank query [q], once the request of [search(q)] has
    failed (other, older requests may have settled meanwhile) [results] is
    empty, [error] is set, and [query] is still [q]. *)
Theorem search_failure_keeps_query
  (w : World) (q : jsstring) (limit : Z) (mid : list Event) (err : thrown) :
  trim q <> [] ->
  Forall (settles_other (Net.next_id (net w))) mid ->
  let w' := run (mid ++ [Settle (Net.next_id (net w)) (Rejected err)]) (search q limit w) in
  results (state w') = []
  /\ error (state w') = Some (asError err "Search failed")
  /\ error (state w') <> None
  /\ query (state w') = q
  /\ Net.sent (net w') = Net.sent (net w) ++ [searchEntries q limit].
Proof.
  intros Hq Hmid w'.
  pose proof (@search_nonblank q limit w Hq) as S.
  assert (W : waiting (Net.next_id (net w)) (search q limit w)).
  { rewrite S. unfold waiting; simpl.
    rewrite map_app. apply in_or_app. right. left. reflexivity. }
  destruct (@others_settle _ _ _ Hmid W) as (W' & Q' & S').
  assert (E : state w' =
              mkState [] false (Some (asError err "Search failed")) q).
  { unfold w'. rewrite run_app_search. simpl.
    rewrite (@settle_rejected _ err _ W'), Q', S. reflexivity. }
  assert (N : Net.sent (net w') = Net.sent (net w) ++ [searchEntries q limit]).
  { unfold w'. rewrite run_app_search. simpl.
    rewrite settle_sent_search, S', S. reflexivity. }
  rewrite E; simpl. repeat split; [discriminate | exact N].
Qed.

Lemma search_failure_keeps_query_witness :
  let w := run [CallSearch (str "meeting") 20;
                Settle 0 (Resolved (mkSearchResponse (str "meeting") [Sample.hitX] 1));
                CallSearch (str "standup") 20] initial in
  let w' := run [Settle 1 (Resolved (mkSearchResponse (str "standup") [] 0));
                 Settle 2 (Rejected Sample.http500)]
                (search (str "meeting") 20 w) in
  trim (str "meeting") <> []
  /\ results (state w) = [Sample.hitX]
  /\ results (state w') = []
  /\ error (state w') <> None
  /\ query (state w') = str "meeting".
Proof.
  intros w w'.
  assert (Hq : trim (str "meeting") <> []) by (vm_compute; discriminate).
  pose proof (@search_failure_keeps_query w (str "meeting") 20
                [Settle 1 (Resolved (mkSearchResponse (str "standup") [] 0))]
                Sample.http500 Hq) as H.
  destruct H as (R & _ & E & Q & _).
  { repeat constructor; simpl; discriminate. }
  repeat split; assumption.
Defined.

End SearchClaims.

(** ** Recorder status *)

Section StatusFacts.
Import Status.

Lemma fire_waiting t w : fires t w -> waiting (Net.next_id (net w)) (fire t w).
Proof.
  intros H. unfold waiting.
  assert (In (Net.next_id (net w))
             (map fst (Net.pending (net w) ++ [(Net.next_id (net w), tt)]))) as G.
  { rewrite map_app. apply in_or_app. right. left. reflexivity. }
  destruct t; simpl; [exact G | | exact G].
  rewrite (H eq_refl). exact G.
Qed.

Lemma fire_keeps i t w : waiting i w -> waiting i (fire t w).
Proof.
  unfold waiting. intros H.
  assert (In i (map fst (Net.pending (net w) ++ [(Net.next_id (net w), tt)]))) as G.
  { rewrite map_app. apply in_or_app. left. exact H. }
  destruct t; simpl; [exact G | | exact G].
  destruct (interval w); [exact G | exact H].
Qed.

Lemma step_keeps i e w : other_than i e -> waiting i w -> waiting i (step e w).
Proof.
  intros He Hw. destruct e as [t|j o|]; simpl in *.
  - apply fire_keeps, Hw.
  - unfold waiting, settle in *.
    destruct (Net.take j _) as [[u rest]|] eqn:E; [|exact Hw].
    assert (In i (map fst rest)) by (eapply take_keeps; eauto).
    destruct o; assumption.
  - exact Hw.
Qed.

Lemma run_keeps i evs w :
  Forall (other_than i) evs -> waiting i w -> waiting i (run evs w).
Proof.
  intros H; revert w. induction H as [|e evs He _ IH]; intros w Hw; [exact Hw|].
  simpl. apply IH, step_keeps; assumption.
Qed.

End StatusFacts.

Section StatusClaims.
Import Status.

(** C6. The header derives one indicator from the status it holds:
    active exactly when [recording] is true; paused exactly when
    [recording] is false and [paused] is true; inactive in every other
    case, among them the case where no status has been fetched. *)
Theorem indicator_precedence (status : option StatusResponse) :
  (Header.indicator status = Header.Active <->
     exists s, status = Some s /\ recording s = true)
  /\ (Header.indicator status = Header.Paused <->
        exists s, status = Some s /\ recording s = false /\ paused s = true)
  /\ (Header.indicator status = Header.Inactive <->
        status = None
        \/ exists s, status = Some s /\ recording s = false /\ paused s = false).
Proof.
  unfold Header.indicator, Header.opt.
  destruct status as [s|].
  - destruct (recording s) eqn:R, (paused s) eqn:P;
      (repeat split; intros H;
       try discriminate H; try reflexivity;
       try (exists s; rewrite ?R, ?P; auto; fail);
       try (right; exists s; rewrite ?R, ?P; auto; fail);
       try (destruct H as (s' & [= <-] & H); rewrite ?R, ?P in H;
            destruct H; discriminate);
       try (destruct H as (s' & [= <-] & H); rewrite ?R in H; discriminate);
       try (destruct H as [H | (s' & [= <-] & H)];
            [discriminate | rewrite ?R, ?P in H; destruct H; discriminate])).
  - repeat split; intros H; try discriminate H; try (left; reflexivity);
      try reflexivity; destruct H as (s' & H & _); discriminate.
Qed.

(** C7. For every [fetchStatus()] call, whether the mount effect, an
    interval tick or a manual refetch made it, if its request fails then
    the status held at that moment is retained ([None] stays [None]),
    what the header shows does not change, nothing is sent again, and the
    resulting world does not depend on the error: it is dropped. *)
Theorem status_failure_swallowed
  (w0 : World) (t : Trigger) (mid : list Event) (err : thrown) :
  fires t w0 ->
  Forall (other_than (Net.next_id (net w0))) mid ->
  let w := run mid (fire t w0) in
  let w' := settle (Net.next_id (net w0)) (Rejected err) w in
  status (state w') = status (state w)
  /\ Header.view w' = Header.view w
  /\ loading (state w') = false
  /\ Net.sent (net w') = Net.sent (net w)
  /\ interval w' = interval w
  /\ length (Net.pending (net w')) < length (Net.pending (net w))
  /\ forall err', settle (Net.next_id (net w0)) (Rejected err') w = w'.
Proof.
  intros Ht Hmid w w'.
  assert (W : waiting (Net.next_id (net w0)) w)
    by (apply run_keeps; [exact Hmid | apply fire_waiting, Ht]).
  destruct (take_some _ _ W) as (u & rest & E).
  pose proof (take_length _ _ E) as L.
  assert (S : forall e, settle (Net.next_id (net w0)) (Rejected e) w =
              mkWorld (mkState (status (state w)) false)
                      (Net.mk (Net.sent (net w)) rest) (interval w)).
  { intros e. unfold settle. rewrite E. reflexivity. }
  unfold w'. rewrite (S err). simpl.
  repeat split; [rewrite L; apply Nat.lt_succ_diag_r | exact S].
Qed.

Lemma status_failure_swallowed_witness :
  let w0 := run [Settle 0 (Resolved Sample.recorder_on)] mount in
  let mid := [Fire Refetch; Settle 2 (Resolved Sample.recorder_paused)] in
  let w := run mid (fire Tick w0) in
  let w' := settle 1 (Rejected Sample.http500) w in
  fires Tick w0
  /\ status (state w0) = Some Sample.recorder_on
  /\ status (state w') = Some Sample.recorder_paused
  /\ Header.view w' = Header.view w
  /\ forall err', settle 1 (Rejected err') w = w'.
Proof.
  intros w0 mid w w'.
  assert (Ht : fires Tick w0) by (intros _; reflexivity).
  assert (Hm : Forall (other_than (Net.next_id (net w0))) mid)
    by (repeat constructor; simpl; discriminate).
  pose proof (@status_failure_swallowed w0 Tick mid Sample.http500 Ht Hm)
    as (Hs & Hv & _ & _ & _ & _ & He).
  repeat split; assumption.
Defined.

End StatusClaims.

(** ** Detail modal *)

Section ModalClaims.
Import Modal.

(** Opening the modal on a mounted grid: the outstanding cleanup runs,
    then the effect registers its handler and hides the overflow. *)
Lemma select_mounted e sel d h n :
  select e (mkWorld sel d (Some h) n) =
  mkWorld (Some e)
          (mkDom (str "hidden")
                 (filter (fun h' => negb (Nat.eqb h h')) (keydown d) ++ [n]))
          (Some n) (S n).
Proof. reflexivity. Qed.

(** C8, as the modal has it. On a mounted grid, [select(e)] suppresses
    background scrolling, and leaving the modal by the close button, a
    backdrop click, the escape key or teardown always sets the body's
    overflow to "unset": scrolling is released on every exit path, and the
    state before [select] is restored when it was "unset". *)
Theorem dismiss_releases_scroll (w : World) (e : Entry) (p : Exit) :
  cleanup w <> None ->
  let w' := dismiss p (select e w) in
  suppressed (select e w) = true
  /\ body_overflow (dom w') = str "unset"
  /\ suppressed w' = false
  /\ (body_overflow (dom w) = str "unset" ->
      body_overflow (dom w') = body_overflow (dom w)).
Proof.
  destruct w as [sel d [h|] n]; intros Hm; [clear Hm | contradiction].
  intros w'.
  assert (U : body_overflow (dom w') = str "unset").
  { unfold w'. rewrite select_mounted.
    destruct p; simpl dismiss; try reflexivity.
    unfold keydown_event. simpl keydown.
    destruct (filter _ (keydown d) ++ [n]) eqn:E.
    - apply app_eq_nil in E. destruct E; discriminate.
    - reflexivity. }
  unfold suppressed. rewrite U. simpl dom.
  repeat split. congruence.
Qed.

Lemma dismiss_releases_scroll_witness :
  let w := dismiss CloseButton (select Sample.entryA (mount (mkDom [] []))) in
  let w' := dismiss EscapeKey (select Sample.entryB w) in
  cleanup w <> None
  /\ body_overflow (dom w) = str "unset"
  /\ suppressed (select Sample.entryB w) = true
  /\ suppressed w' = false
  /\ body_overflow (dom w') = body_overflow (dom w).
Proof.
  intros w w'.
  assert (Hm : cleanup w <> None) by discriminate.
  pose proof (@dismiss_releases_scroll w Sample.entryB EscapeKey Hm)
    as (Hs & _ & Hf & Hr).
  split; [exact Hm|]. split; [reflexivity|]. split; [exact Hs|].
  split; [exact Hf | apply Hr; reflexivity].
Defined.

(** C8, as stated, fails. If scrolling was already suppressed when the
    entry was selected, it is not suppressed after the modal is closed;
    and on a fresh document, whose body has no inline overflow, the style
    left behind is "unset", not the empty one found. *)
Lemma dismiss_does_not_restore :
  (let w := mount (mkDom (str "hidden") []) in
   suppressed w = true
   /\ suppressed (dismiss CloseButton (select Sample.entryA w)) = false)
  /\ (let w := mount (mkDom [] []) in
      body_overflow (dom w) = []
      /\ body_overflow (dom (dismiss CloseButton (select Sample.entryA w)))
         <> body_overflow (dom w)).
Proof.
  repeat split. discriminate.
Qed.

End ModalClaims.

(** ** Statistics page *)

Section StatsClaims.
Import Stats.
Local Open Scope Z_scope.

Lemma or1_nonzero x : or1 x <> 0.
Proof. unfold or1. destruct (Z.eqb_spec x 0); lia. Qed.

Lemma hourly_floored (counts : list Z) :
  floored_max counts (fold_right Z.max 1 counts).
Proof.
  induction counts as [|c l (H1 & H2 & H3)]; simpl.
  - repeat split; [lia | constructor | left; reflexivity].
  - repeat split.
    + lia.
    + constructor; [lia|].
      eapply Forall_impl; [|exact H2]. simpl; intros; lia.
    + destruct (Z.max_spec c (fold_right Z.max 1 l)) as [[_ ->] | [_ ->]].
      * destruct H3 as [-> | H3]; [left; reflexivity | right; right; exact H3].
      * right; left; reflexivity.
Qed.

(** C9, as the page has it. The denominator of the per-app bars is the
    count of the first app, or 1 when there is no app or that count is 0,
    so it is never 0; it is the largest count, floored at 1, when counts
    are non-negative and no app has a larger count than the first. The
    denominator of the hourly chart is the largest hourly count, floored
    at 1, for every payload. *)
Theorem chart_denominators (apps : list AppStats) (data : list HourlyActivity) :
  apps_maxCount apps = or1 (hd 0 (map count apps))
  /\ apps_maxCount apps <> 0
  /\ floored_max (map hcount data) (hourly_maxCount data)
  /\ (first_is_largest apps ->
      Forall (fun a => 0 <= count a) apps ->
      floored_max (map count apps) (apps_maxCount apps)).
Proof.
  split; [|split; [|split]].
  - destruct apps; reflexivity.
  - destruct apps; simpl; [lia | apply or1_nonzero].
  - apply hourly_floored.
  - intros Hfirst Hpos.
    destruct apps as [|a rest]; simpl in *.
    + repeat split; [lia | constructor | left; reflexivity].
    + inversion Hpos as [|? ? Ha _]; subst.
      unfold or1. destruct (Z.eqb_spec (count a) 0) as [E|E].
      * repeat split; [lia | | left; reflexivity].
        constructor; [lia|]. rewrite Forall_map.
        eapply Forall_impl; [|exact Hfirst]. simpl; intros; lia.
      * repeat split; [lia | | right; left; reflexivity].
        constructor; [lia|]. rewrite Forall_map. exact Hfirst.
Qed.

Lemma chart_denominators_witness :
  let apps := [mkAppStats (str "Code") 42 (Some (str "development"));
               mkAppStats (str "Chrome") 17 None;
               mkAppStats (str "Slack") 17 None] in
  let data := [mkHourly 9 12; mkHourly 14 30; mkHourly 22 4] in
  first_is_largest apps
  /\ apps_maxCount apps = 42
  /\ hourly_maxCount data = 30
  /\ floored_max (map count apps) 42
  /\ floored_max (map hcount data) 30.
Proof.
  intros apps data.
  assert (H1 : first_is_largest apps) by (repeat constructor; simpl; lia).
  assert (H2 : Forall (fun a => 0 <= count a) apps) by (repeat constructor; simpl; lia).
  pose proof (@chart_denominators apps data) as (_ & _ & Hh & Ha).
  specialize (Ha H1 H2).
  repeat split; try exact H1; try apply Ha; try apply Hh.
Defined.

(** C9, as stated, fails. With a first app that is not the busiest, the
    bars are scaled by the first app's count, which is not the largest. *)
Lemma first_app_not_the_max :
  let apps := [mkAppStats (str "Slack") 1 None; mkAppStats (str "Code") 5 None] in
  apps_maxCount apps = 1
  /\ In 5 (map count apps)
  /\ ~ floored_max (map count apps) (apps_maxCount apps).
Proof.
  intros apps. repeat split; [simpl; auto|].
  intros (_ & H & _). simpl in H.
  inversion H as [|? ? _ H']; subst. inversion H' as [|? ? H5 _]; subst.
  unfold or1 in H5; simpl in H5. lia.
Qed.

End StatsClaims.

(** * Further properties of the code *)

(** ** Timeline page *)

Section TimelinePageFacts.
Import Timeline TimelinePage.
Local Open Scope Z_scope.

Lemma pages_upto_next p :
  1 <= p -> pages_upto (p + 1) = pages_upto p ++ [getEntries (p + 1) 20].
Proof.
  intros Hp. unfold pages_upto.
  replace (Z.to_nat (p + 1)) with (S (Z.to_nat p)) by lia.
  rewrite seq_S, map_app. simpl. repeat f_equal. lia.
Qed.

Lemma pages_upto_NoDup p : NoDup (pages_upto p).
Proof.
  unfold pages_upto. generalize (seq_NoDup (Z.to_nat p) 1).
  induction (List.seq 1 (Z.to_nat p)) as [|a l IH]; simpl; intros H; [constructor|].
  inversion H as [|? ? Ha Hl]; subst. constructor; [|apply IH, Hl].
  rewrite in_map_iff. intros (b & [= Hb] & Hin).
  apply Nat2Z.inj in Hb. subst b. contradiction.
Qed.

Lemma coherent_mount : coherent mount.
Proof.
  unfold coherent; simpl. split; [lia|]. split; [reflexivity|].
  right; left. repeat split.
Qed.

Lemma coherent_quiet w : coherent w -> quiet w.
Proof.
  intros (Hp & _ & [(P & _) | [(P & _ & _ & H & _) | (P & _ & H & _)]]);
    unfold quiet; rewrite P; auto.
Qed.

Lemma coherent_loadMore w : coherent w -> coherent (loadMore w).
Proof.
  intros C. pose proof C as (Hp & Hs & M).
  destruct (loadingMore (state w)) eqn:Hl.
  { rewrite loadMore_blocked; auto. }
  destruct (hasMore (state w)) eqn:Hm.
  2:{ rewrite loadMore_blocked; auto. }
  assert (Hg : may_load w) by (split; assumption).
  rewrite (loadMore_fires Hp Hg).
  pose proof (quiet_idle (coherent_quiet C) Hg) as P.
  unfold coherent; simpl. split; [lia|]. split.
  - rewrite Hs. symmetry. apply pages_upto_next, Hp.
  - right; right. unfold loading_more; simpl. rewrite P; simpl.
    rewrite length_app, Nat.add_1_r. simpl. unfold Net.next_id.
    destruct M as [(_ & L & _) | [(_ & _ & _ & F & _) | (_ & _ & F & _)]];
      [|congruence|congruence].
    repeat split; [exact L | lia].
Qed.

Lemma coherent_settle i o w : coherent w -> coherent (settle i o w).
Proof.
  intros (Hp & Hs & M). unfold settle.
  destruct M as [(P & L & LM) | [(P & L & LM & H & E & Pg) | (P & L & LM & H & Pg)]];
    rewrite P; simpl.
  - unfold coherent, idle; auto 10.
  - destruct (Nat.eqb i 0).
    + destruct o as [data|err]; unfold coherent, idle; simpl; auto 10.
    + unfold coherent, first_load; auto 10.
  - destruct (Nat.eqb i _).
    + destruct o as [data|err]; unfold coherent, idle; simpl; auto 10.
    + unfold coherent, loading_more; auto 10.
Qed.

Lemma coherent_step e w : coherent w -> coherent (step e w).
Proof.
  intros C. destruct e as [|c|i o]; simpl.
  - apply coherent_loadMore, C.
  - destruct (handleScroll_cases w c) as [-> | ->];
      [exact C | apply coherent_loadMore, C].
  - apply coherent_settle, C.
Qed.

Lemma coherent_run evs w : coherent w -> coherent (run evs w).
Proof.
  revert w; induction evs as [|e evs IH]; intros w C; simpl; [exact C|].
  apply IH, coherent_step, C.
Qed.

(** One step only ever adds entries at the end. *)
Lemma step_extends e w :
  coherent w -> exists more, entries (state (step e w)) = entries (state w) ++ more.
Proof.
  intros C.
  assert (L : exists more, entries (state (loadMore w)) = entries (state w) ++ more).
  { exists []. rewrite app_nil_r. unfold loadMore.
    destruct (negb _ && _); [|reflexivity].
    unfold seq, fetchEntries, seq. destruct (_ =? 1); reflexivity. }
  destruct e as [|c|i o]; simpl.
  - exact L.
  - destruct (handleScroll_cases w c) as [-> | ->];
      [exists []; now rewrite app_nil_r | exact L].
  - destruct C as (_ & _ & M). unfold settle.
    destruct M as [(P & _) | [(P & _ & _ & _ & E & _) | (P & _)]]; rewrite P; simpl.
    + exists []. now rewrite app_nil_r.
    + destruct (Nat.eqb i 0); [|exists []; now rewrite app_nil_r].
      destruct o as [data|err]; simpl.
      * exists (pr_entries data). rewrite E. reflexivity.
      * exists []. now rewrite app_nil_r.
    + destruct (Nat.eqb i _); [|exists []; now rewrite app_nil_r].
      destruct o as [data|err]; simpl.
      * exists (pr_entries data). reflexivity.
      * exists []. now rewrite app_nil_r.
Qed.

End TimelinePageFacts.

Section TimelinePageProperties.
Import Timeline TimelinePage.
Local Open Scope Z_scope.

(** Before its request settles, the mounted page ignores everything else. *)
Lemma mount_frozen mid : Forall (other_than 0%nat) mid -> run mid mount = mount.
Proof.
  induction 1 as [|e mid He _ IH]; [reflexivity|].
  simpl. replace (step e mount) with mount; [exact IH|].
  destruct e as [|c|j o]; simpl.
  - reflexivity.
  - symmetry. apply handleScroll_blocked. right; reflexivity.
  - unfold settle; simpl. simpl in He.
    change (Net.next_id Net.empty) with 0%nat.
    destruct (Nat.eqb_spec j 0); [contradiction | reflexivity].
Qed.

(** X3. Entries are never dropped, replaced or reordered once shown: the
    entries of any reachable state are a prefix of the entries of every
    state reached later. *)
Theorem entries_only_grow (evs later : list Event) :
  exists more,
    entries (state (run (evs ++ later) mount)) =
    entries (state (run evs mount)) ++ more.
Proof.
  rewrite run_app.
  pose proof (coherent_run evs coherent_mount) as C.
  generalize dependent (run evs mount). intros w C.
  revert w C; induction later as [|e later IH]; intros w C; simpl.
  - exists []. now rewrite app_nil_r.
  - destruct (step_extends e C) as (m1 & E1).
    destruct (IH _ (coherent_step e C)) as (m2 & E2).
    exists (m1 ++ m2). rewrite E2, E1, app_assoc. reflexivity.
Qed.

(** X4. When the mount request resolves, whatever was clicked or scrolled
    meanwhile, the feed is exactly the first page: its entries in response
    order, [hasMore] from the response, [page] still 1; the grid shows the
    cards, or the empty-timeline message when the page has no entries. *)
Theorem first_page_replaces (mid : list Event) (data : PaginatedResponse) :
  Forall (other_than 0%nat) mid ->
  let w := run (mid ++ [Settle 0 (Resolved data)]) mount in
  state w = mkState (pr_entries data) false 1 (has_more data) false
  /\ Net.pending (net w) = []
  /\ grid (render w) =
     match pr_entries data with
     | [] => Grid.Message
               (str "No observations yet. Start recording to see your activity here.")
     | _ :: _ => Grid.Cards (pr_entries data)
     end.
Proof.
  intros Hmid w.
  assert (E : w = settle 0 (Resolved data) mount)
    by (unfold w; rewrite run_app, (mount_frozen Hmid); reflexivity).
  rewrite E. repeat split.
  unfold render; simpl. destruct (pr_entries data); reflexivity.
Qed.

Lemma first_page_replaces_witness :
  let mid := [ClickLoadMore; Scroll (Some Sample.near_bottom); Settle 3 (Rejected ThrownOther)] in
  let w := run (mid ++ [Settle 0 (Resolved Sample.page1)]) mount in
  Forall (other_than 0%nat) mid
  /\ entries (state w) = [Sample.entryA; Sample.entryB]
  /\ grid (render w) = Grid.Cards [Sample.entryA; Sample.entryB].
Proof.
  intros mid w.
  assert (Hm : Forall (other_than 0%nat) mid) by (repeat constructor; simpl; discriminate).
  pose proof (@first_page_replaces mid Sample.page1 Hm) as (Hs & _ & Hg).
  split; [exact Hm|]. split; [|exact Hg].
  unfold w. rewrite Hs. reflexivity.
Defined.

(** X5. Whenever the Load More button is drawn, a click on it, or a scroll
    event within 200 pixels of the bottom, sends exactly one request, for
    the next page, hides the button and shows the spinner, leaving the
    entries as they are; a scroll event at 200 pixels or more from the
    bottom, or with no scroll container found, changes nothing. *)
Theorem next_page_triggers (evs : list Event) (w : World) (c : ScrollContainer) :
  w = run evs mount ->
  button (render w) = true ->
  let w' := step ClickLoadMore w in
  Net.sent (net w') = Net.sent (net w) ++ [getEntries (page (state w) + 1) 20]
  /\ Net.pending (net w') = [(length (Net.sent (net w)), mkCall (page (state w) + 1) true)]
  /\ entries (state w') = entries (state w)
  /\ button (render w') = false
  /\ spinner (render w') = true
  /\ step (Scroll (Some c)) w = (if near_bottom c then w' else w)
  /\ step (Scroll None) w = w.
Proof.
  intros Hw Hb w'.
  assert (C : coherent w) by (rewrite Hw; apply coherent_run, coherent_mount).
  assert (Hg : may_load w).
  { unfold render in Hb; simpl in Hb. apply andb_prop in Hb as [H1 H2].
    apply negb_true_iff in H2. split; assumption. }
  pose proof (loadMore_fires (proj1 C) Hg) as F.
  pose proof (quiet_idle (coherent_quiet C) Hg) as P.
  unfold w'; simpl step. rewrite F; simpl. rewrite P; simpl.
  repeat split.
  unfold handleScroll, near_bottom. destruct Hg as [-> ->]. simpl.
  rewrite andb_true_r. destruct (_ <? 200); reflexivity.
Qed.

Lemma next_page_triggers_witness :
  let w := run Sample.feed_loaded mount in
  let w' := step ClickLoadMore w in
  button (render w) = true
  /\ Net.sent (net w') = [getEntries 1 20; getEntries 2 20]
  /\ step (Scroll (Some Sample.near_bottom)) w = w'
  /\ step (Scroll (Some (mkScroll 0 1600 700))) w = w.
Proof.
  intros w w'.
  assert (Hb : button (render w) = true) by reflexivity.
  pose proof (@next_page_triggers Sample.feed_loaded w Sample.near_bottom eq_refl Hb)
    as (Hs & _ & _ & _ & _ & Hn & _).
  pose proof (@next_page_triggers Sample.feed_loaded w (mkScroll 0 1600 700) eq_refl Hb)
    as (_ & _ & _ & _ & _ & Hf & _).
  repeat split; assumption.
Defined.

(** With [hasMore] false and nothing in flight, every event is ignored. *)
Lemma nothing_left_to_do w evs :
  hasMore (state w) = false -> Net.pending (net w) = [] -> run evs w = w.
Proof.
  intros Hm Hp. induction evs as [|e evs IH]; [reflexivity|].
  simpl. replace (step e w) with w; [exact IH|].
  destruct e as [|c|i o]; simpl.
  - symmetry. apply loadMore_blocked. right; exact Hm.
  - symmetry. apply handleScroll_blocked. right; exact Hm.
  - unfold settle. rewrite Hp. reflexivity.
Qed.



(** X7. When the mount request fails, the page ends up showing the
    empty-timeline message, with neither spinner nor button, and stays
    so: only the request for page 1 is ever sent, whatever the user does
    afterwards. *)
Theorem first_load_failure_is_final (mid later : list Event) (err : thrown) :
  Forall (other_than 0%nat) mid ->
  let w := run (mid ++ Settle 0 (Rejected err) :: later) mount in
  render w =
    mkView (Grid.Message
              (str "No observations yet. Start recording to see your activity here."))
           false false
  /\ state w = mkState [] false 1 false false
  /\ Net.sent (net w) = [getEntries 1 20]
  /\ console w = [err].
Proof.
  intros Hmid w.
  assert (E : w = settle 0 (Rejected err) mount).
  { unfold w. rewrite run_app, (mount_frozen Hmid). simpl.
    apply nothing_left_to_do; reflexivity. }
  rewrite E. repeat split.
Qed.

Lemma first_load_failure_is_final_witness :
  let mid := [Scroll (Some Sample.near_bottom)] in
  let w := run (mid ++ Settle 0 (Rejected Sample.http500) :: [ClickLoadMore; ClickLoadMore]) mount in
  Forall (other_than 0%nat) mid
  /\ Net.sent (net w) = [getEntries 1 20]
  /\ state w = mkState [] false 1 false false.
Proof.
  intros mid w.
  assert (Hm : Forall (other_than 0%nat) mid) by (repeat constructor).
  pose proof (@first_load_failure_is_final mid [ClickLoadMore; ClickLoadMore]
                Sample.http500 Hm) as (_ & Hs & Hn & _).
  repeat split; assumption.
Defined.

End TimelinePageProperties.

(** ** Trimming *)

Section TrimFacts.

Lemma trimStart_head s c r : trimStart s = c :: r -> isWhiteSpace c = false.
Proof.
  induction s as [|a s IH]; simpl; [discriminate|].
  destruct (isWhiteSpace a) eqn:E; [exact IH|].
  intros [= <- _]. exact E.
Qed.


Lemma trimStart_keeps_last l c :
  isWhiteSpace c = false -> trimStart (l ++ [c]) = trimStart l ++ [c].
Proof.
  intros Hc. induction l as [|a l IH]; simpl; [now rewrite Hc|].
  destruct (isWhiteSpace a); [exact IH | reflexivity].
Qed.

Lemma trimStart_idem s : trimStart (trimStart s) = trimStart s.
Proof.
  destruct (trimStart s) as [|c r] eqn:E; [reflexivity|].
  apply trimStart_head in E. simpl. now rewrite E.
Qed.

Lemma trimEnd_keeps_first c r :
  isWhiteSpace c = false -> trimEnd (c :: r) = c :: trimEnd r.
Proof.
  intros Hc. unfold trimEnd. simpl.
  rewrite trimStart_keeps_last by exact Hc.
  rewrite rev_app_distr. reflexivity.
Qed.

Lemma trimEnd_idem s : trimEnd (trimEnd s) = trimEnd s.
Proof. unfold trimEnd. now rewrite rev_involutive, trimStart_idem. Qed.

Lemma trim_idem s : trim (trim s) = trim s.
Proof.
  unfold trim. destruct (trimStart s) as [|c r] eqn:E; [reflexivity|].
  apply trimStart_head in E.
  rewrite trimEnd_keeps_first by exact E. simpl. rewrite E.
  rewrite trimEnd_keeps_first by exact E. now rewrite trimEnd_idem.
Qed.


Lemma truthy_nonempty s : truthy s = true <-> s <> [].
Proof. destruct s; simpl; split; congruence. Qed.

End TrimFacts.

(** ** Search hook and search page *)

Section SearchMoreFacts.
Import Search.

Lemma settle_resolved i data w :
  waiting i w ->
  state (settle i (Resolved data) w) =
  mkState (sq_results data) false (error (state w)) (query (state w)).
Proof.
  intros Hw. destruct (take_some _ _ Hw) as (u & rest & E).
  unfold settle. rewrite E. reflexivity.
Qed.

Lemma search_waiting q limit w :
  trim q <> [] -> waiting (Net.next_id (net w)) (search q limit w).
Proof.
  intros Hq. rewrite (@search_nonblank q limit w Hq). unfold waiting; simpl.
  rewrite map_app. apply in_or_app. right. left. reflexivity.
Qed.

Lemma search_keeps_waiting i q limit w : waiting i w -> waiting i (search q limit w).
Proof.
  unfold waiting, search. intros H.
  destruct (negb _); simpl; [exact H|].
  rewrite map_app. apply in_or_app. left. exact H.
Qed.

Lemma clear_keeps_waiting i w : waiting i w -> waiting i (clear w).
Proof. intros H; exact H. Qed.

End SearchMoreFacts.

Section SearchProperties.
Import Search.

(** X8. For every non-blank query [q], once the request of [search(q)]
    has resolved (older requests may have settled meanwhile) [results] is
    exactly the response's results, nothing of the earlier results being
    kept, [query] is [q] and [loading] is false; with nothing else settling
    in between, [error] is cleared too. *)
Theorem search_success_replaces
  (w : World) (q : jsstring) (limit : Z) (mid : list Event) (data : SearchResponse) :
  trim q <> [] ->
  Forall (settles_other (Net.next_id (net w))) mid ->
  let w' := run (mid ++ [Settle (Net.next_id (net w)) (Resolved data)]) (search q limit w) in
  results (state w') = sq_results data
  /\ query (state w') = q
  /\ loading (state w') = false
  /\ (mid = [] -> error (state w') = None).
Proof.
  intros Hq Hmid w'.
  pose proof (@search_nonblank q limit w Hq) as S.
  destruct (@others_settle _ _ _ Hmid (@search_waiting q limit w Hq)) as (W' & Q' & _).
  assert (E : state w' =
              mkState (sq_results data) false
                      (error (state (run mid (search q limit w)))) q).
  { unfold w'. rewrite run_app_search. simpl.
    rewrite (@settle_resolved _ data _ W'), Q', S. reflexivity. }
  rewrite E; simpl. repeat split.
  intros ->. simpl. rewrite S. reflexivity.
Qed.

Lemma search_success_replaces_witness :
  let w := run [CallSearch (str "meeting") 20;
                Settle 0 (Resolved (mkSearchResponse (str "meeting") [Sample.hitX] 1))] initial in
  let w' := run [Settle 1 (Resolved (mkSearchResponse (str "standup") [] 0))]
                (search (str "standup") 20 w) in
  trim (str "standup") <> []
  /\ results (state w) = [Sample.hitX]
  /\ results (state w') = []
  /\ query (state w') = str "standup"
  /\ error (state w') = None.
Proof.
  intros w w'.
  assert (Hq : trim (str "standup") <> []) by (vm_compute; discriminate).
  pose proof (@search_success_replaces w (str "standup") 20 []
                (mkSearchResponse (str "standup") [] 0) Hq (Forall_nil _))
    as (R & Q & _ & E).
  split; [exact Hq|]. split; [reflexivity|].
  split; [exact R|]. split; [exact Q | exact (E eq_refl)].
Defined.

(** X9. Two overlapping searches whose responses arrive in the opposite
    order: as soon as the second search's response arrives [loading]
    drops although the first is still in flight, and when the first
    search's response arrives last, its results are the ones kept, under
    the query of the second search. The last response to resolve wins. *)
Theorem last_response_wins
  (w : World) (q1 q2 : jsstring) (l1 l2 : Z) (d1 d2 : SearchResponse) :
  trim q1 <> [] ->
  trim q2 <> [] ->
  let k1 := Net.next_id (net w) in
  let k2 := S k1 in
  let w2 := run [CallSearch q1 l1; CallSearch q2 l2; Settle k2 (Resolved d2)] w in
  let w' := settle k1 (Resolved d1) w2 in
  Net.sent (net w2) = Net.sent (net w) ++ [searchEntries q1 l1; searchEntries q2 l2]
  /\ (results (state w2) = sq_results d2 /\ loading (state w2) = false
      /\ waiting k1 w2)
  /\ results (state w') = sq_results d1
  /\ query (state w') = q2.
Proof.
  intros H1 H2 k1 k2 w2 w'.
  pose proof (@search_nonblank q1 l1 w H1) as S1.
  set (w1 := search q1 l1 w) in *.
  pose proof (@search_nonblank q2 l2 w1 H2) as S2.
  assert (N1 : Net.next_id (net w1) = k2).
  { rewrite S1. unfold Net.next_id; simpl. rewrite length_app. simpl.
    unfold k2, k1, Net.next_id. apply Nat.add_1_r. }
  assert (W1 : waiting k1 (search q2 l2 w1))
    by (apply search_keeps_waiting; apply (@search_waiting q1 l1 w H1)).
  assert (W2 : waiting k2 (search q2 l2 w1))
    by (rewrite <- N1; apply (@search_waiting q2 l2 w1 H2)).
  assert (E2 : w2 = settle k2 (Resolved d2) (search q2 l2 w1)) by reflexivity.
  assert (W1' : waiting k1 w2).
  { rewrite E2. apply settle_other_waiting; [|exact W1].
    unfold k2. apply Nat.neq_succ_diag_l. }
  assert (St2 : state w2 = mkState (sq_results d2) false None q2).
  { rewrite E2, (@settle_resolved _ d2 _ W2), S2. reflexivity. }
  split.
  - rewrite E2, settle_sent_search, S2. simpl. rewrite S1. simpl.
    now rewrite <- app_assoc.
  - split; [rewrite St2; auto|].
    unfold w'. rewrite (@settle_resolved _ d1 _ W1'), St2. auto.
Qed.

Lemma last_response_wins_witness :
  let d1 := mkSearchResponse (str "meeting") [Sample.hitX] 1 in
  let d2 := mkSearchResponse (str "lunch") [] 0 in
  let w' := run [CallSearch (str "meeting") 20; CallSearch (str "lunch") 20;
                 Settle 1 (Resolved d2); Settle 0 (Resolved d1)] initial in
  trim (str "meeting") <> [] /\ trim (str "lunch") <> []
  /\ results (state w') = [Sample.hitX]
  /\ query (state w') = str "lunch".
Proof.
  intros d1 d2 w'.
  assert (H1 : trim (str "meeting") <> []) by (vm_compute; discriminate).
  assert (H2 : trim (str "lunch") <> []) by (vm_compute; discriminate).
  pose proof (@last_response_wins initial (str "meeting") (str "lunch") 20 20 d1 d2 H1 H2)
    as (_ & _ & R & Q).
  repeat split; assumption.
Defined.

End SearchProperties.

Section SearchPageProperties.
Import SearchPage.

Lemma handleSubmit_nonblank w :
  trim (inputValue w) <> [] ->
  handleSubmit w =
  mkWorld (inputValue w)
    (Search.mkWorld
       (Search.mkState (Search.results (Search.state (hook w))) true None
                       (trim (inputValue w)))
       (Net.issue (searchEntries (trim (inputValue w)) 20) tt (Search.net (hook w)))).
Proof.
  intros H. unfold handleSubmit, call.
  destruct (trim (inputValue w)) as [|c r] eqn:E; [contradiction|].
  simpl truthy. cbv iota. f_equal.
  apply search_nonblank. rewrite <- E, trim_idem, E. discriminate.
Qed.


(** X11. A search that fails is shown as "Search failed: " followed by the
    error's message, together with the line "Found 0 results for" the
    query and the clear button; submitting again replaces the failure by
    the loading skeletons. *)
Theorem failed_search_is_shown (w : World) (err : thrown) :
  trim (inputValue w) <> [] ->
  let w' := settle (Net.next_id (Search.net (hook w))) (Rejected err) (handleSubmit w) in
  render w' =
    mkView true
      (Some (mkSummary 0 true (trim (inputValue w))))
      (Failed (str "Search failed: " ++ message (asError err "Search failed")))
  /\ summary (render (handleSubmit w')) = None
  /\ body (render (handleSubmit w')) = Results (Grid.Skeletons 8).
Proof.
  intros Hq w'.
  assert (Hi : truthy (inputValue w) = true).
  { apply truthy_nonempty. intros E. rewrite E in Hq. apply Hq. reflexivity. }
  assert (St : Search.state (hook w') =
               Search.mkState [] false (Some (asError err "Search failed"))
                              (trim (inputValue w))).
  { unfold w', settle, call; simpl.
    rewrite settle_rejected.
    - rewrite (handleSubmit_nonblank w Hq). reflexivity.
    - rewrite (handleSubmit_nonblank w Hq). unfold Search.waiting; simpl.
      rewrite map_app. apply in_or_app. right. left. reflexivity. }
  assert (In' : inputValue w' = inputValue w).
  { unfold w', settle, call; simpl. now rewrite (handleSubmit_nonblank w Hq). }
  split.
  - unfold render. rewrite St, In', Hi. simpl.
    destruct (trim (inputValue w)); [contradiction | reflexivity].
  - assert (Hq' : trim (inputValue w') <> []) by (rewrite In'; exact Hq).
    rewrite (handleSubmit_nonblank w' Hq'). unfold render; simpl.
    rewrite !andb_false_r. split; reflexivity.
Qed.

Lemma failed_search_is_shown_witness :
  let w := mkWorld (str " meeting ") Search.initial in
  let w' := settle 0 (Rejected Sample.http500) (handleSubmit w) in
  trim (inputValue w) = str "meeting"
  /\ render w' =
     mkView true (Some (mkSummary 0 true (str "meeting")))
            (Failed (str "Search failed: HTTP error! status: 500")).
Proof.
  intros w w'.
  assert (E : trim (inputValue w) = str "meeting") by reflexivity.
  assert (Hq : trim (inputValue w) <> []) by (rewrite E; discriminate).
  split; [exact E|].
  exact (proj1 (@failed_search_is_shown w Sample.http500 Hq)).
Defined.

(** X12. Clearing the form does not cancel the search in flight. When its
    response arrives after the clear, the results are stored although the
    query is empty, and the page shows its opening prompt, not them; when
    it fails after the clear, the page shows the failure with an empty
    input box. *)
Theorem clear_does_not_cancel (w : World) (o : outcome SearchResponse) :
  trim (inputValue w) <> [] ->
  let w' := settle (Net.next_id (Search.net (hook w))) o (handleClear (handleSubmit w)) in
  inputValue w' = []
  /\ Search.query (Search.state (hook w')) = []
  /\ match o with
     | Resolved data =>
         Search.results (Search.state (hook w')) = sq_results data
         /\ render w' = mkView false None Prompt
     | Rejected err =>
         render w' =
         mkView false None
           (Failed (str "Search failed: " ++ message (asError err "Search failed")))
     end.
Proof.
  intros Hq w'.
  assert (W : Search.waiting (Net.next_id (Search.net (hook w)))
                (hook (handleClear (handleSubmit w)))).
  { rewrite (handleSubmit_nonblank w Hq). unfold Search.waiting; simpl.
    rewrite map_app. apply in_or_app. right. left. reflexivity. }
  assert (S0 : Search.state (hook (handleClear (handleSubmit w))) =
               Search.mkState [] true None []).
  { rewrite (handleSubmit_nonblank w Hq). reflexivity. }
  split; [reflexivity|].
  assert (Iv : inputValue w' = []) by reflexivity.
  destruct o as [data|err].
  - assert (St : Search.state (hook w') =
                 Search.mkState (sq_results data) false None []).
    { change (hook w') with
        (Search.settle (Net.next_id (Search.net (hook w))) (Resolved data)
           (hook (handleClear (handleSubmit w)))).
      rewrite (@settle_resolved _ data _ W), S0. reflexivity. }
    unfold render. rewrite St, Iv. simpl. auto.
  - assert (St : Search.state (hook w') =
                 Search.mkState [] false (Some (asError err "Search failed")) []).
    { change (hook w') with
        (Search.settle (Net.next_id (Search.net (hook w))) (Rejected err)
           (hook (handleClear (handleSubmit w)))).
      rewrite (@settle_rejected _ err _ W), S0. reflexivity. }
    unfold render. rewrite St, Iv. split; reflexivity.
Qed.

Lemma clear_does_not_cancel_witness :
  let w := mkWorld (str "meeting") Search.initial in
  let data := mkSearchResponse (str "meeting") [Sample.hitX] 1 in
  let w' := settle 0 (Resolved data) (handleClear (handleSubmit w)) in
  trim (inputValue w) <> []
  /\ Search.results (Search.state (hook w')) = [Sample.hitX]
  /\ render w' = mkView false None Prompt.
Proof.
  intros w data w'.
  assert (Hq : trim (inputValue w) <> []) by (vm_compute; discriminate).
  split; [exact Hq|].
  exact (proj2 (proj2 (@clear_does_not_cancel w (Resolved data) Hq))).
Defined.

End SearchPageProperties.

(** ** Status poller *)

Section StatusProperties.
Import Status StatusRun.

Lemma settle_sent_status i o w : Net.sent (net (settle i o w)) = Net.sent (net w).
Proof.
  unfold settle. destruct (Net.take i _) as [[u rest]|]; [|reflexivity].
  destruct o; reflexivity.
Qed.

Lemma settle_interval i o w : interval (settle i o w) = interval w.
Proof.
  unfold settle. destruct (Net.take i _) as [[u rest]|]; [|reflexivity].
  destruct o; reflexivity.
Qed.

Lemma passive_disarmed evs w :
  Forall passive evs -> interval w = false ->
  Net.sent (net (run evs w)) = Net.sent (net w).
Proof.
  intros H; revert w. induction H as [|e evs He _ IH]; intros w Hi; [reflexivity|].
  simpl. destruct e as [[| |]|i o|]; simpl in He; try contradiction; simpl.
  - rewrite Hi. apply IH, Hi.
  - rewrite IH; [apply settle_sent_status | now rewrite settle_interval].
  - apply (IH (unmount w)). reflexivity.
Qed.

(** X13. While the interval is armed every tick sends one status request;
    once the header unmounts, no tick and no late response sends another:
    the timer is cancelled for good. *)
Theorem polling_stops_at_unmount (w : World) :
  (interval w = true ->
   forall n, Net.sent (net (run (repeat (Fire Tick) n) w)) =
             Net.sent (net w) ++ repeat getStatus n)
  /\ (forall evs, Forall passive evs ->
        Net.sent (net (run (Unmount :: evs) w)) = Net.sent (net w)).
Proof.
  split.
  - intros Hi n. revert w Hi. induction n as [|n IH]; intros w Hi; simpl.
    + now rewrite app_nil_r.
    + rewrite Hi. rewrite IH by exact Hi. simpl. now rewrite <- app_assoc.
  - intros evs H. simpl. apply (@passive_disarmed evs (unmount w) H). reflexivity.
Qed.

Lemma unsettled_mount : loading_means_unsettled mount.
Proof. left. repeat split. Qed.

Lemma unsettled_fetch w :
  loading_means_unsettled w -> loading_means_unsettled (fetchStatus w).
Proof.
  intros [(L & N & S) | (L & N)]; [left | right]; simpl.
  - repeat split; auto. unfold none_settled in *; simpl.
    rewrite map_app, length_app, N. simpl.
    rewrite Nat.add_1_r, seq_S. reflexivity.
  - split; [exact L|]. rewrite !length_app. simpl. apply Nat.add_lt_mono_r, N.
Qed.

Lemma unsettled_step e w :
  loading_means_unsettled w -> loading_means_unsettled (step e w).
Proof.
  intros H. destruct e as [[| |]|i o|]; simpl.
  - apply (unsettled_fetch H).
  - destruct (interval w); [apply (unsettled_fetch H) | exact H].
  - apply (unsettled_fetch H).
  - unfold settle. destruct (Net.take i _) as [[u rest]|] eqn:E; [|exact H].
    pose proof (take_length _ _ E) as Len.
    right. assert (length rest < length (Net.sent (net w)))%nat as Lt.
    { destruct H as [(_ & N & _) | (_ & N)].
      - unfold none_settled in N.
        rewrite <- (length_map fst), N, length_seq in Len. rewrite Len. auto.
      - rewrite Len in N. apply Nat.lt_succ_l, N. }
    destruct o; simpl; split; auto.
  - exact H.
Qed.

(** X14. From the mount on, [loading] is true exactly as long as no
    request has settled; while it is true no status is held; and once a
    first request has settled, by response or by failure, no later tick
    or refetch raises it again. *)
Theorem status_loading_until_first_settle (evs later : list Event) :
  let w := run evs mount in
  (loading (state w) = true <-> none_settled w)
  /\ (loading (state w) = true -> status (state w) = None)
  /\ (loading (state w) = false ->
      loading (state (run later w)) = false).
Proof.
  intros w.
  assert (R : forall l v, loading_means_unsettled v -> loading_means_unsettled (run l v)).
  { induction l as [|e l IH]; intros v Hv; simpl; [exact Hv|].
    apply IH, unsettled_step, Hv. }
  pose proof (R evs mount unsettled_mount) as H. fold w in H.
  assert (Lt : forall v, (length (Net.pending (net v)) < length (Net.sent (net v)))%nat ->
                 ~ none_settled v).
  { intros v Hlt N. unfold none_settled in N.
    rewrite <- (length_map fst), N, length_seq in Hlt.
    apply (Nat.lt_irrefl _ Hlt). }
  split; [|split].
  - destruct H as [(L & N & _) | (L & N)]; rewrite L; split; auto; try discriminate.
    intros Hn. destruct (Lt w N Hn).
  - destruct H as [(_ & _ & S) | (L & _)]; [auto | rewrite L; discriminate].
  - intros L. destruct H as [(L' & _) | H']; [congruence|].
    assert (H2 : loading_means_unsettled w) by (right; exact H').
    destruct (R later w H2) as [(L2 & N2 & _) | (L2 & _)]; [|exact L2].
    exfalso.
    assert (M : forall l v,
               (length (Net.pending (net v)) < length (Net.sent (net v)))%nat ->
               loading (state v) = false ->
               loading (state (run l v)) = false).
    { induction l as [|e l IH]; intros v Hv Lv; simpl; [exact Lv|].
      assert (Hs : loading_means_unsettled (step e v))
        by (apply unsettled_step; right; auto).
      assert (Ls : loading (state (step e v)) = false).
      { destruct e as [[| |]|i o|]; simpl; auto.
        - destruct (interval v); auto.
        - unfold settle. destruct (Net.take i _) as [[u rest]|]; auto. }
      destruct Hs as [(Lx & _) | (_ & Nx)]; [congruence|].
      apply IH; assumption. }
    rewrite (M later w (proj2 H') L) in L2. discriminate.
Qed.

End StatusProperties.

(** ** Statistics hook and page *)

Section StatsPageProperties.
Import UseStats.
Local Open Scope Z_scope.

(** X15. Whenever a statistics request settles: a failure keeps the
    statistics already held but the page shows only the failure notice; a
    response replaces the statistics, and the page shows them unless an
    error is held from another, failed request. Fetching again shows the
    spinner and clears the error, keeping the statistics. *)
Theorem stats_settle_view (w : World) (i : nat) (o : outcome SystemStats) :
  waiting i w ->
  let w' := settle i o w in
  match o with
  | Rejected err =>
      stats (state w') = stats (state w)
      /\ error (state w') = Some (asError err "Failed to fetch stats")
      /\ StatsPage.render w' = StatsPage.FailedNotice
  | Resolved data =>
      stats (state w') = Some data
      /\ StatsPage.render w' =
         match error (state w) with
         | None => StatsPage.Content data
         | Some _ => StatsPage.FailedNotice
         end
  end
  /\ StatsPage.render (fetchStats w') = StatsPage.Spinner
  /\ error (state (fetchStats w')) = None
  /\ stats (state (fetchStats w')) = stats (state w').
Proof.
  intros Hw w'. destruct (take_some _ _ Hw) as (u & rest & E).
  unfold w', settle. rewrite E.
  destruct o as [data|err]; unfold StatsPage.render; simpl.
  - repeat split.
  - repeat split.
Qed.

Lemma stats_settle_view_witness :
  let w := settle 0 (Rejected Sample.http500) mount in
  waiting 0 mount
  /\ StatsPage.render mount = StatsPage.Spinner
  /\ stats (state w) = None
  /\ StatsPage.render w = StatsPage.FailedNotice.
Proof.
  intros w.
  assert (Hw : waiting 0 mount) by (left; reflexivity).
  pose proof (@stats_settle_view mount 0%nat (Rejected Sample.http500) Hw)
    as ((Hs & _ & Hr) & _).
  repeat split; assumption.
Defined.

Lemma hourly_count_bounded data h :
  Stats.hourly_count data h <= Stats.hourly_maxCount data.
Proof.
  destruct (hourly_floored (map hcount data)) as (H1 & H2 & _).
  fold (Stats.hourly_maxCount data) in H1, H2.
  unfold Stats.hourly_count.
  destruct (find _ data) as [d|] eqn:F; [|lia].
  apply find_some in F as [Hin _].
  rewrite Forall_forall in H2. apply H2, in_map, Hin.
Qed.

(** X16. The hourly chart always has 24 columns, for the hours 0 to 23 in
    order, whatever the payload holds. No column's count exceeds the
    chart's denominator; an hour without a record counts 0; of several
    records for one hour the one drawn is the first in the payload,
    wherever it stands; the highlighted columns are those of hours 9 to
    17. *)
Theorem hourly_chart_columns (data : list HourlyActivity) :
  map StatsPage.bar_hour (StatsPage.hourly_bars data) = map Z.of_nat (List.seq 0 24)
  /\ Forall (fun b => StatsPage.hour_count b <= Stats.hourly_maxCount data
                      /\ StatsPage.hour_count b =
                         Stats.hourly_count data (StatsPage.bar_hour b)
                      /\ (StatsPage.work_hour b = true <->
                          9 <= StatsPage.bar_hour b <= 17))
            (StatsPage.hourly_bars data)
  /\ (forall h, ~ In h (map hour data) -> Stats.hourly_count data h = 0)
  /\ (forall before d after,
        Forall (fun r => hour r <> hour d) before ->
        Stats.hourly_count (before ++ d :: after) (hour d) = hcount d).
Proof.
  split; [|split; [|split]].
  - unfold StatsPage.hourly_bars. rewrite map_map. reflexivity.
  - unfold StatsPage.hourly_bars. rewrite Forall_map. apply Forall_forall.
    intros n _. simpl. split; [apply hourly_count_bounded|]. split; [reflexivity|].
    unfold Stats.isWorkHour. rewrite andb_true_iff, !Z.leb_le. tauto.
  - intros h Hn. unfold Stats.hourly_count.
    destruct (find _ data) as [d|] eqn:F; [|reflexivity].
    apply find_some in F as [Hin Hh]. apply Z.eqb_eq in Hh.
    exfalso. apply Hn. rewrite <- Hh. apply in_map, Hin.
  - intros before d after Hb. unfold Stats.hourly_count.
    induction Hb as [|r before Hr _ IH]; simpl.
    + now rewrite Z.eqb_refl.
    + destruct (Z.eqb_spec (hour r) (hour d)); [contradiction | exact IH].
Qed.

Lemma colours_distinct : NoDup (map Some StatsPage.APP_COLORS).
Proof.
  unfold StatsPage.APP_COLORS.
  repeat (constructor; [simpl; intuition discriminate|]). constructor.
Qed.

Lemma NoDup_firstn {A} (l : list A) n : NoDup l -> NoDup (firstn n l).
Proof.
  intros H. rewrite <- (firstn_skipn n l) in H.
  apply NoDup_app_remove_r in H. exact H.
Qed.

Lemma indexed_colours n :
  (n <= 10)%nat ->
  map (fun i => nth_error StatsPage.APP_COLORS (i mod length StatsPage.APP_COLORS)%nat)
      (List.seq 0 n)
  = firstn n (map Some StatsPage.APP_COLORS).
Proof.
  intros H.
  do 11 (destruct n as [|n]; [reflexivity|]).
  exfalso. lia.
Qed.

Lemma map_combine_fst {A B} (g : nat -> B) (l : list A) s :
  map (fun ia : nat * A => g (fst ia)) (combine (List.seq s (length l)) l)
  = map g (List.seq s (length l)).
Proof.
  revert s; induction l as [|a l IH]; intros s; simpl; [reflexivity|].
  now rewrite IH.
Qed.

Lemma map_combine_snd {A B} (f : A -> B) (l : list A) s :
  map (fun ia : nat * A => f (snd ia)) (combine (List.seq s (length l)) l)
  = map f l.
Proof.
  revert s; induction l as [|a l IH]; intros s; simpl; [reflexivity|].
  now rewrite IH.
Qed.

(** X17. The page draws a bar for each of the first ten apps of the
    payload, in payload order and no more; every bar gets a colour of the
    palette, no two bars share one, and all bars are scaled by the same
    denominator. *)
Theorem app_bars_coloured (apps : list AppStats) :
  length (StatsPage.app_bars apps) = Nat.min 10 (length apps)
  /\ map StatsPage.bar_name (StatsPage.app_bars apps) = map name (firstn 10 apps)
  /\ map StatsPage.bar_count (StatsPage.app_bars apps) = map count (firstn 10 apps)
  /\ Forall (fun b => StatsPage.bar_color b <> None
                      /\ StatsPage.bar_maxCount b = Stats.apps_maxCount apps)
            (StatsPage.app_bars apps)
  /\ NoDup (map StatsPage.bar_color (StatsPage.app_bars apps)).
Proof.
  unfold StatsPage.app_bars, Stats.top_apps.
  set (top := firstn 10 apps).
  assert (Hlen : (length top <= 10)%nat) by apply firstn_le_length.
  assert (Hc : map StatsPage.bar_color
                 (map (fun ia : nat * AppStats =>
                         StatsPage.mkBar (name (snd ia)) (count (snd ia))
                           (Stats.apps_maxCount apps)
                           (nth_error StatsPage.APP_COLORS
                              (fst ia mod length StatsPage.APP_COLORS)%nat))
                      (combine (List.seq 0 (length top)) top))
               = firstn (length top) (map Some StatsPage.APP_COLORS)).
  { rewrite map_map. cbn [StatsPage.bar_color].
    rewrite <- (indexed_colours Hlen).
    apply (map_combine_fst
             (fun i => nth_error StatsPage.APP_COLORS
                         (i mod length StatsPage.APP_COLORS)%nat) top 0). }
  split; [|split; [|split; [|split]]].
  - rewrite length_map, length_combine, length_seq, Nat.min_id.
    unfold top. apply length_firstn.
  - rewrite map_map. apply (map_combine_snd name top 0).
  - rewrite map_map. apply (map_combine_snd count top 0).
  - apply Forall_forall. intros b Hb. split.
    + assert (Hin : In (StatsPage.bar_color b)
                       (firstn (length top) (map Some StatsPage.APP_COLORS))).
      { rewrite <- Hc. apply in_map, Hb. }
      intros E. rewrite E in Hin.
      assert (Hall : In None (map Some StatsPage.APP_COLORS)).
      { rewrite <- (firstn_skipn (length top) (map Some StatsPage.APP_COLORS)).
        apply in_or_app. left. exact Hin. }
      apply in_map_iff in Hall as (c & Hx & _). discriminate.
    + apply in_map_iff in Hb as (ia & <- & _). reflexivity.
  - rewrite Hc. apply NoDup_firstn, colours_distinct.
Qed.

End StatsPageProperties.

(** ** Detail modal over many events *)

Section ModalProperties.
Import Modal ModalRun.

Lemma eqb_refl_js s : eqb s s = true.
Proof. unfold eqb. destruct (list_eq_dec N.eq_dec s s); congruence. Qed.

Lemma eqb_neq_js s t : s <> t -> eqb s t = false.
Proof. unfold eqb. destruct (list_eq_dec N.eq_dec s t); congruence. Qed.

(** What a change of selection does to a tidy world. *)
Lemma setSelectedEntry_tidy v w :
  tidy w ->
  setSelectedEntry v w =
  mkWorld v
    (match v with
     | Some _ => mkDom (str "hidden") [runs w]
     | None => mkDom (str "unset") []
     end)
    (Some (runs w)) (S (runs w)).
Proof.
  intros (h & Hc & Hk & _). destruct w as [sel d c n]; simpl in *. subst c.
  unfold setSelectedEntry, seq, rerender; simpl.
  unfold seq, run_cleanup, run_effect, isOpen; simpl.
  unfold effect_cleanup, effect_body, removeEventListener; simpl.
  assert (F : filter (fun h' => negb (Nat.eqb h h')) (keydown d) = []).
  { rewrite Hk. destruct (isOpen _); simpl; [rewrite Nat.eqb_refl|]; reflexivity. }
  rewrite F. destruct v; reflexivity.
Qed.

Lemma tidy_mount d : keydown d = [] -> tidy (mount d).
Proof. intros H. exists 0. simpl. repeat split; [exact H | discriminate]. Qed.

Lemma released_mount d : body_overflow d <> str "hidden" -> released (mount d).
Proof. intros H _. unfold suppressed; simpl. apply eqb_neq_js, H. Qed.

Lemma tidy_step e w : tidy w -> tidy (step e w) /\ (released w -> released (step e w)).
Proof.
  intros T.
  assert (S : forall v, tidy (setSelectedEntry v w) /\ released (setSelectedEntry v w)).
  { intros v. rewrite (setSelectedEntry_tidy v T). split.
    - exists (runs w). destruct v; simpl; repeat split; discriminate.
    - destruct v; intros H; [discriminate | reflexivity]. }
  destruct e as [e| |key]; simpl.
  - split; [apply S | intros _; apply S].
  - split; [apply S | intros _; apply S].
  - unfold keydown_event. destruct (keydown (dom w)); [tauto|].
    destruct (eqb key (str "Escape")); [|tauto].
    split; [apply S | intros _; apply S].
Qed.

Lemma tidy_run evs w :
  tidy w -> tidy (run evs w) /\ (released w -> released (run evs w)).
Proof.
  revert w; induction evs as [|e evs IH]; intros w T; simpl; [tauto|].
  destruct (tidy_step e T) as [T' R'].
  destruct (IH _ T') as [T2 R2]. split; [exact T2 | tauto].
Qed.

(** X18. However often entries are selected, the modal is closed and keys
    are pressed, the document carries exactly one escape handler of the
    modal while it is open and none while it is closed; background
    scrolling is suppressed whenever the modal is open, and, on a page
    that did not suppress it before, only then. *)
Theorem listeners_do_not_accumulate (d : Dom) (evs : list Event) :
  keydown d = [] ->
  let w := run evs (mount d) in
  length (keydown (dom w)) = (if isOpen w then 1 else 0)
  /\ (isOpen w = true -> suppressed w = true)
  /\ (body_overflow d <> str "hidden" -> suppressed w = isOpen w).
Proof.
  intros Hd w.
  destruct (tidy_run evs (tidy_mount d Hd)) as [(h & Hc & Hk & Ho) R]. fold w in Hc, Hk, Ho, R.
  split; [rewrite Hk; destruct (isOpen w); reflexivity|].
  assert (S : isOpen w = true -> suppressed w = true).
  { intros H. unfold suppressed. rewrite (Ho H). apply eqb_refl_js. }
  split; [exact S|].
  intros Hn. destruct (isOpen w) eqn:E; [apply S; reflexivity|].
  apply (R (released_mount Hn)). exact E.
Qed.

Lemma listeners_do_not_accumulate_witness :
  let evs := [Select Sample.entryA; Key (str "Escape"); Select Sample.entryB;
              Key (str "Enter"); Select Sample.entryC] in
  let w := run evs (mount (mkDom [] [])) in
  isOpen w = true
  /\ length (keydown (dom w)) = 1
  /\ suppressed w = true.
Proof.
  intros evs w.
  pose proof (@listeners_do_not_accumulate (mkDom [] []) evs eq_refl) as (L & S & _).
  split; [reflexivity|]. split; [exact L | apply S; reflexivity].
Defined.

(** X19. A key press closes the modal only if it is the escape key and
    the modal is open; any other key, and escape while the modal is
    closed, changes nothing. *)
Theorem only_escape_closes (d : Dom) (evs : list Event) (key : jsstring) :
  keydown d = [] ->
  let w := run evs (mount d) in
  step (Key key) w =
    (if eqb key (str "Escape") && isOpen w then onClose w else w)
  /\ isOpen (step (Key (str "Escape")) w) = false.
Proof.
  intros Hd w.
  destruct (tidy_run evs (tidy_mount d Hd)) as [T _]. fold w in T.
  pose proof T as (h & Hc & Hk & _).
  assert (K : forall k, step (Key k) w =
                (if eqb k (str "Escape") && isOpen w then onClose w else w)).
  { intros k. simpl. unfold keydown_event. rewrite Hk.
    destruct (isOpen w); [rewrite andb_true_r | rewrite andb_false_r]; reflexivity. }
  split; [apply K|].
  rewrite K, eqb_refl_js. simpl.
  destruct (isOpen w) eqn:E; [|exact E].
  unfold onClose. rewrite (setSelectedEntry_tidy None T). reflexivity.
Qed.

Lemma only_escape_closes_witness :
  let w := run [Select Sample.entryA] (mount (mkDom [] [])) in
  step (Key (str "Enter")) w = w
  /\ isOpen w = true
  /\ isOpen (step (Key (str "Escape")) w) = false.
Proof.
  intros w.
  pose proof (@only_escape_closes (mkDom [] []) [Select Sample.entryA]
                (str "Enter") eq_refl) as (K & C).
  split; [exact K|]. split; [reflexivity | exact C].
Defined.

End ModalProperties.

(** ** Query parameters *)

Section ClientProperties.
Import Client.
Local Open Scope Z_scope.

Lemma set_number_cases key v :
  (falsy_number v /\ set_number key v = [])
  \/ (exists n, v = Some n /\ n <> 0 /\ set_number key v = [(str key, Num n)]).
Proof.
  unfold falsy_number, set_number. destruct v as [n|]; [|auto].
  destruct (Z.eqb_spec n 0) as [->|Hn]; [auto|].
  right. exists n. auto.
Qed.

Lemma set_string_cases key v :
  (falsy_string v /\ set_string key v = [])
  \/ (exists s, v = Some s /\ s <> [] /\ set_string key v = [(str key, Str s)]).
Proof.
  unfold falsy_string, set_string. destruct v as [s|]; [|auto].
  destruct s as [|c s]; [auto|].
  right. exists (c :: s). repeat split. discriminate.
Qed.

Lemma set_number_In key param k v :
  In (k, v) (set_number key param) <-> k = str key /\ number_sent param v.
Proof.
  unfold set_number, number_sent. destruct param as [n|]; simpl.
  - destruct (Z.eqb_spec n 0) as [->|Hn]; simpl.
    + split; [contradiction | intros (_ & m & [= <-] & Hm & _); contradiction].
    + split.
      * intros [[= <- <-] | []]. split; [reflexivity | exists n; auto].
      * intros (-> & m & [= <-] & _ & ->). left; reflexivity.
  - split; [contradiction | intros (_ & m & Hm & _); discriminate].
Qed.

Lemma set_string_In key param k v :
  In (k, v) (set_string key param) <-> k = str key /\ string_sent param v.
Proof.
  unfold set_string, string_sent. destruct param as [s|]; simpl.
  - destruct s as [|c s]; simpl.
    + split; [contradiction | intros (_ & m & [= <-] & Hm & _); contradiction].
    + split.
      * intros [[= <- <-] | []]. split; [reflexivity|].
        exists (c :: s). repeat split. discriminate.
      * intros (-> & m & [= <-] & _ & ->). left; reflexivity.
  - split; [contradiction | intros (_ & m & Hm & _); discriminate].
Qed.

(** X20. [getEntries] puts into the query exactly the parameters that are
    given and truthy: a pair is in the query if and only if its key is one
    of page, limit, start_date, end_date, app and its value is that very
    parameter, given and neither 0 nor the empty string. Each key occurs
    at most once, the keys come in the order just listed, and the query is
    empty exactly when every parameter is absent, 0 or empty. *)
Theorem getEntries_omits_falsy (p : EntriesParams) :
  (forall k v,
     In (k, v) (searchParams p) <->
       (k = str "page" /\ number_sent (page p) v)
       \/ (k = str "limit" /\ number_sent (limit p) v)
       \/ (k = str "start_date" /\ number_sent (start_date p) v)
       \/ (k = str "end_date" /\ number_sent (end_date p) v)
       \/ (k = str "app" /\ string_sent (app_filter p) v))
  /\ map fst (searchParams p) =
       filter (fun k => existsb (eqb k) (map fst (searchParams p))) keys
  /\ NoDup (map fst (searchParams p))
  /\ (has_query p = false <->
      falsy_number (page p) /\ falsy_number (limit p)
      /\ falsy_number (start_date p) /\ falsy_number (end_date p)
      /\ falsy_string (app_filter p)).
Proof.
  split.
  { intros k v. unfold searchParams.
    rewrite !in_app_iff, !set_number_In, set_string_In. tauto. }
  unfold has_query, searchParams.
  destruct (set_number_cases "page" (page p)) as [(F1 & ->) | (n1 & E1 & N1 & ->)];
  destruct (set_number_cases "limit" (limit p)) as [(F2 & ->) | (n2 & E2 & N2 & ->)];
  destruct (set_number_cases "start_date" (start_date p)) as [(F3 & ->) | (n3 & E3 & N3 & ->)];
  destruct (set_number_cases "end_date" (end_date p)) as [(F4 & ->) | (n4 & E4 & N4 & ->)];
  destruct (set_string_cases "app" (app_filter p)) as [(F5 & ->) | (s5 & E5 & N5 & ->)];
  (split; [reflexivity|]);
  (split; [simpl; repeat (constructor; [simpl; intuition discriminate|]); constructor|]);
  (split; [intros H; first [discriminate H | auto 10] |]);
  intros (G1 & G2 & G3 & G4 & G5); simpl; try reflexivity; exfalso;
  unfold falsy_number, falsy_string in *;
  repeat match goal with
         | E : ?x = Some ?n, G : ?x = None \/ ?x = Some _ |- _ =>
             destruct G as [G | G]; rewrite E in G;
             [discriminate | injection G as G; subst; contradiction]
         end.
Qed.

Lemma page_zero_is_dropped :
  searchParams (mkParams (Some 0) (Some 20) None (Some 1700000300) (Some []))
  = [(str "limit", Num 20); (str "end_date", Num 1700000300)].
Proof. reflexivity. Qed.

End ClientProperties.

(** ** Timeline page between renders *)

Section StaleFacts.
Import Timeline.
Local Open Scope Z_scope.

(** A handler whose render is current is the handler of module
    [Timeline]. *)
Lemma loadMore_of_current w : Stale.loadMore_of (state w) w = loadMore w.
Proof. reflexivity. Qed.

Lemma handleScroll_of_current c w : Stale.handleScroll_of (state w) c w = handleScroll c w.
Proof. reflexivity. Qed.

(** With a render after every event, the page is the one of [Timeline.run]. *)
Lemma paced_run evs w :
  Stale.run (Stale.paced evs) (Stale.mkMounted w (state w)) =
  Stale.mkMounted (run evs w) (state (run evs w)).
Proof.
  revert w; induction evs as [|e evs IH]; intros w; [reflexivity|].
  destruct e; simpl; apply IH.
Qed.

Lemma loadMore_of_blocked seen w :
  loadingMore seen = true \/ hasMore seen = false -> Stale.loadMore_of seen w = w.
Proof.
  intros H. unfold Stale.loadMore_of.
  destruct H as [-> | ->]; simpl; [reflexivity | now rewrite andb_false_r].
Qed.

Lemma handleScroll_of_cases seen c w :
  Stale.handleScroll_of seen c w = w
  \/ Stale.handleScroll_of seen c w = Stale.loadMore_of seen w.
Proof.
  destruct c as [c|]; simpl; [|left; reflexivity].
  destruct (_ && _ && _); [right|left]; reflexivity.
Qed.

Lemma loadMore_of_fires seen w :
  1 <= page seen -> loadingMore seen = false -> hasMore seen = true ->
  Stale.loadMore_of seen w =
  mkWorld (mkState (entries (state w)) (loading (state w)) (page seen + 1)
                   (hasMore (state w)) true)
          (Net.issue (getEntries (page seen + 1) 20)
                     (mkCall (page seen + 1) true) (net w))
          (console w).
Proof.
  intros Hp Hl Hm. unfold Stale.loadMore_of. rewrite Hl, Hm. simpl.
  unfold seq, fetchEntries, seq.
  destruct (Z.eqb_spec (page seen + 1) 1) as [E|_]; [lia | reflexivity].
Qed.

Lemma last_cons (p : Z) l d : last (p :: l) d = last l p.
Proof.
  revert p d; induction l as [|q l IH]; intros p d; [reflexivity|].
  change (last (p :: q :: l) d) with (last (q :: l) d).
  rewrite (IH q d), (IH q p). reflexivity.
Qed.

Lemma climbs_snoc prev l q :
  Stale.climbs prev l -> q = last l prev \/ q = last l prev + 1 ->
  Stale.climbs prev (l ++ [q]).
Proof.
  revert prev; induction l as [|p l IH]; intros prev H Hq; simpl in *.
  - tauto.
  - destruct H as [Hp Hl]. split; [exact Hp|].
    apply IH; [exact Hl|]. rewrite <- (last_cons p l prev). exact Hq.
Qed.

Lemma take_Forall {K} (P : nat * K -> Prop) l i k rest :
  Net.take i l = Some (k, rest) -> Forall P l -> Forall P rest.
Proof.
  revert rest; induction l as [|[j k'] l IH]; simpl; intros rest; [discriminate|].
  intros E H. inversion H as [|? ? Hj Hl]; subst.
  destruct (Nat.eqb i j); [injection E as _ <-; exact Hl|].
  destruct (Net.take i l) as [[k'' r']|]; [|discriminate].
  injection E as <- <-. constructor; [exact Hj | apply (IH r' eq_refl Hl)].
Qed.

Lemma sound_mount : Stale.sound Stale.mount.
Proof.
  unfold Stale.sound; simpl. split; [lia|]. split; [left; reflexivity|]. split.
  - exists []. repeat split.
  - left. repeat split.
Qed.

Lemma sound_loadMore_of m :
  Stale.sound m ->
  Stale.sound (Stale.mkMounted (Stale.loadMore_of (Stale.seen m) (Stale.world m))
                               (Stale.seen m)).
Proof.
  intros S. pose proof S as (Hp & Hpg & (rest & Hs & Hc & Hl) & Ph).
  destruct m as [w seen]; simpl in *.
  destruct (loadingMore seen) eqn:Hlm.
  { rewrite loadMore_of_blocked; auto. }
  destruct (hasMore seen) eqn:Hhm.
  2:{ rewrite loadMore_of_blocked; auto. }
  rewrite (@loadMore_of_fires seen w Hp Hlm Hhm).
  destruct Ph as [(_ & _ & _ & F) | (L & A & _)]; [simpl in F; congruence|].
  simpl in L, A.
  unfold Stale.sound; simpl. split; [exact Hp|]. split; [right; reflexivity|]. split.
  - exists (rest ++ [page seen + 1]). unfold Stale.asked; simpl.
    rewrite Hs. simpl. rewrite map_app. simpl. split; [reflexivity|]. split.
    + apply climbs_snoc; [exact Hc|]. rewrite Hl. lia.
    + apply last_last.
  - right. unfold Stale.browsing; simpl. split; [exact L|]. split.
    + apply Forall_app. split; [exact A | repeat constructor].
    + intros _ E. apply app_eq_nil in E as [_ E]. discriminate.
Qed.

Lemma sound_step e m : Stale.sound m -> Stale.sound (Stale.step e m).
Proof.
  intros S. destruct e as [|c|i o|]; simpl.
  - apply sound_loadMore_of, S.
  - destruct (handleScroll_of_cases (Stale.seen m) c (Stale.world m)) as [-> | ->];
      [destruct m; exact S | apply sound_loadMore_of, S].
  - destruct S as (Hp & Hpg & (rest & Hs & Hc & Hl) & Ph).
    destruct m as [w seen]; simpl in *. unfold settle.
    destruct (Net.take i (Net.pending (net w))) as [[k rest']|] eqn:E.
    2:{ unfold Stale.sound; simpl. split; [exact Hp|]. split; [exact Hpg|].
        split; [exists rest; unfold Stale.asked; auto | exact Ph]. }
    assert (St : forall cells,
              page (state (fetchEntries_resume k o (mkWorld (state w) cells (console w))))
              = page (state w)
              /\ Net.sent (net (fetchEntries_resume k o (mkWorld (state w) cells (console w))))
                 = Net.sent cells
              /\ Net.pending (net (fetchEntries_resume k o (mkWorld (state w) cells (console w))))
                 = Net.pending cells
              /\ loading (state (fetchEntries_resume k o (mkWorld (state w) cells (console w))))
                 = false
              /\ loadingMore (state (fetchEntries_resume k o (mkWorld (state w) cells (console w))))
                 = false).
    { intros cells. destruct o as [data|err]; simpl; [destruct (append k)|]; auto. }
    destruct (St (Net.mk (Net.sent (net w)) rest')) as (P1 & P2 & P3 & P4 & P5).
    set (w' := fetchEntries_resume k o
                 (mkWorld (state w) (Net.mk (Net.sent (net w)) rest') (console w))) in *.
    clearbody w'. simpl in P2, P3.
    unfold Stale.sound; cbn [Stale.world Stale.seen].
    split; [exact Hp|]. split; [rewrite P1; exact Hpg|]. split.
    + exists rest. unfold Stale.asked. rewrite P1, P2. auto.
    + right. unfold Stale.browsing; cbn [Stale.world Stale.seen].
      rewrite P3, P4, P5.
      split; [reflexivity|]. split; [|discriminate].
      destruct Ph as [(Pe & _) | (_ & A & _)]; simpl in *.
      * rewrite Pe in E. simpl in E.
        destruct (Nat.eqb i 0); [injection E as _ <-; constructor | discriminate].
      * eapply take_Forall; [exact E | exact A].
  - destruct S as (Hp & Hpg & R & Ph). destruct m as [w seen]; simpl in *.
    unfold Stale.sound; simpl.
    split; [destruct Hpg as [-> | ->]; lia|]. split; [left; reflexivity|].
    split; [exact R|].
    destruct Ph as [(P & L & H & _) | B]; [left | right; exact B].
    unfold Stale.opening; simpl. auto.
Qed.

Lemma sound_run evs m : Stale.sound m -> Stale.sound (Stale.run evs m).
Proof.
  revert m; induction evs as [|e evs IH]; intros m S; simpl; [exact S|].
  apply IH, sound_step, S.
Qed.

End StaleFacts.

Section StaleProperties.
Import Timeline.
Local Open Scope Z_scope.

(** X1. Whenever the handlers run, even those of an outdated render, every
    request the page sends is for 20 entries, the pages asked for start
    at 1 and go up without skipping one, and the last page asked for is
    the current [page]. When the page renders again after every event, the
    requests are exactly those for pages 1, 2, ..., [page], each sent
    once. *)
Theorem pages_are_requested_in_order (sched : list Stale.Event) (evs : list Event) :
  (exists rest,
     Net.sent (net (Stale.world (Stale.run sched Stale.mount))) =
       map (fun p => getEntries p 20) (1 :: rest)
     /\ Stale.climbs 1 rest
     /\ last rest 1 = page (state (Stale.world (Stale.run sched Stale.mount))))
  /\ (let w := Stale.world (Stale.run (Stale.paced evs) Stale.mount) in
      Net.sent (net w) = TimelinePage.pages_upto (page (state w))
      /\ NoDup (Net.sent (net w))).
Proof.
  split; cbv zeta.
  - destruct (sound_run sched sound_mount) as (_ & _ & R & _). exact R.
  - unfold Stale.mount. rewrite paced_run. simpl.
    destruct (coherent_run evs coherent_mount) as (_ & Hs & _).
    split; [exact Hs|]. rewrite Hs. apply pages_upto_NoDup.
Qed.

(** X2. Whenever the handlers run, [loading] is true exactly while the
    request for page 1 is in flight, and [loadingMore] is true only while
    some request is. When the page renders again after every event, at
    most one request is in flight, [loadingMore] is true exactly while a
    request for a later page is, which is then the request for the
    current [page], and both flags are false exactly when nothing is in
    flight. *)
Theorem flags_follow_the_requests (sched : list Stale.Event) (evs : list Event) :
  (let w := Stale.world (Stale.run sched Stale.mount) in
   (loading (state w) = true <-> Net.pending (net w) = [(0%nat, mkCall 1 false)])
   /\ (loadingMore (state w) = true -> Net.pending (net w) <> []))
  /\ (let w := Stale.world (Stale.run (Stale.paced evs) Stale.mount) in
      (length (Net.pending (net w)) <= 1)%nat
      /\ (loadingMore (state w) = true <->
          exists i, Net.pending (net w) = [(i, mkCall (page (state w)) true)]
                    /\ 1 < page (state w))
      /\ (Net.pending (net w) = [] <->
          loading (state w) = false /\ loadingMore (state w) = false)).
Proof.
  split; cbv zeta.
  - destruct (sound_run sched sound_mount) as (_ & _ & _ & Ph).
    destruct Ph as [(P & L & _) | (L & A & N)].
    + rewrite P, L. repeat split; auto. discriminate.
    + rewrite L. split; [|exact N]. split; [discriminate|].
      intros P. rewrite P in A. inversion A as [|? ? Ha _]. discriminate Ha.
  - unfold Stale.mount. rewrite paced_run. simpl.
    destruct (coherent_run evs coherent_mount) as (Hp & Hs & M).
    destruct M as [(P & L & LM) | [(P & L & LM & H & E & Pg) | (P & L & LM & H & Pg)]];
      rewrite P, ?L, LM; simpl;
      (split; [lia|]); split; split;
      try discriminate; try reflexivity; auto;
      try (intros (i & Hi & _); discriminate Hi);
      try (intros [Hx Hy]; discriminate).
    intros _. eexists; split; [reflexivity | exact Pg].
Qed.

(** Once a call of [loadMore] has gone out and the page has rendered, only
    the settling of its request changes anything. *)
Lemma waiting_for_settle k call mid w :
  loadingMore (state w) = true ->
  Net.pending (net w) = [(k, call)] ->
  Forall (Stale.other_than k) mid ->
  Stale.run mid (Stale.mkMounted w (state w)) = Stale.mkMounted w (state w).
Proof.
  intros Hl Hp Hmid. induction Hmid as [|e mid He _ IH]; [reflexivity|].
  simpl. replace (Stale.step e (Stale.mkMounted w (state w)))
    with (Stale.mkMounted w (state w)); [exact IH|].
  destruct e as [|c|j o|]; simpl.
  - rewrite loadMore_of_blocked; auto.
  - destruct (handleScroll_of_cases (state w) c w) as [-> | ->];
      [reflexivity | rewrite loadMore_of_blocked; auto].
  - unfold settle. rewrite Hp. simpl. simpl in He.
    destruct (Nat.eqb_spec j k); [contradiction | reflexivity].
  - reflexivity.
Qed.

(** A trigger on a page whose render is current, followed by the render. *)
Lemma trigger_then_render evs e :
  let w := run evs mount in
  may_load w ->
  Stale.triggers e ->
  Stale.run [e; Stale.Render] (Stale.run (Stale.paced evs) Stale.mount) =
  Stale.mkMounted (loadMore w) (state (loadMore w))
  /\ loadMore w =
     mkWorld (mkState (entries (state w)) (loading (state w)) (page (state w) + 1)
                      true true)
             (Net.mk (Net.sent (net w) ++ [getEntries (page (state w) + 1) 20])
                     [(Net.next_id (net w), mkCall (page (state w) + 1) true)])
             (console w).
Proof.
  intros w Hg He.
  assert (Hq : quiet w) by apply quiet_run, quiet_mount.
  assert (F : loadMore w = _) by apply (loadMore_fires (proj1 Hq) Hg).
  split.
  - unfold Stale.mount. rewrite paced_run. fold w.
    destruct e as [|[c|]|j o|]; simpl in He; try contradiction; simpl.
    + reflexivity.
    + unfold TimelinePage.near_bottom in He. rewrite He.
      destruct Hg as [Hl Hm]. rewrite Hl, Hm. reflexivity.
  - rewrite F. unfold Net.issue. rewrite (quiet_idle Hq Hg). reflexivity.
Qed.

(** X21. If the page has rendered after every earlier event and the guard
    of [loadMore] is open, then after a click or a scroll near the bottom,
    once the page has rendered again, nothing that happens in any order
    before the response changes the feed, and when the response arrives the
    page's entries are appended once after the entries held at the call:
    their number grows by the page's length, [hasMore] is the response's
    [has_more] and [page] is one more. *)
Theorem loadMore_appends_once_after_render
  (evs : list Event) (e : Stale.Event) (mid : list Stale.Event)
  (data : PaginatedResponse) :
  let m := Stale.run (Stale.paced evs) Stale.mount in
  let w := Stale.world m in
  let k := Net.next_id (net w) in
  may_load w ->
  Stale.triggers e ->
  Forall (Stale.other_than k) mid ->
  let w' := Stale.world
              (Stale.run (e :: Stale.Render :: mid ++ [Stale.Settle k (Resolved data)]) m) in
  entries (state w') = entries (state w) ++ pr_entries data
  /\ length (entries (state w')) =
     (length (entries (state w)) + length (pr_entries data))%nat
  /\ hasMore (state w') = has_more data
  /\ page (state w') = page (state w) + 1
  /\ Net.sent (net w') = Net.sent (net w) ++ [getEntries (page (state w) + 1) 20]
  /\ Net.pending (net w') = [].
Proof.
  intros m w k Hg He Hmid w'.
  assert (Ew : w = run evs mount)
    by (unfold w, m, Stale.mount; rewrite paced_run; reflexivity).
  rewrite Ew in Hg.
  destruct (trigger_then_render evs e Hg He) as [T F].
  fold m in T. rewrite <- Ew in T, F.
  assert (E : w' = settle k (Resolved data) (loadMore w)).
  { unfold w'.
    change (e :: Stale.Render :: mid ++ [Stale.Settle k (Resolved data)])
      with ([e; Stale.Render] ++ (mid ++ [Stale.Settle k (Resolved data)])).
    unfold Stale.run at 1. rewrite fold_left_app.
    fold (Stale.run [e; Stale.Render] m). rewrite T.
    rewrite fold_left_app.
    fold (Stale.run mid (Stale.mkMounted (loadMore w) (state (loadMore w)))).
    rewrite (@waiting_for_settle k (mkCall (page (state w) + 1) true) mid (loadMore w));
      [reflexivity | rewrite F; reflexivity | rewrite F; reflexivity | exact Hmid]. }
  rewrite E, F. unfold settle; simpl. unfold k. rewrite Nat.eqb_refl. simpl.
  repeat split. apply length_app.
Qed.

Lemma loadMore_appends_once_after_render_witness :
  let m := Stale.run (Stale.paced Sample.feed_loaded) Stale.mount in
  let mid := [Stale.Scroll (Some Sample.near_bottom); Stale.Click; Stale.Render;
              Stale.Settle 0 (Resolved Sample.page1)] in
  let w' := Stale.world
              (Stale.run (Stale.Scroll (Some Sample.near_bottom) :: Stale.Render
                          :: mid ++ [Stale.Settle 1 (Resolved Sample.page2)]) m) in
  may_load (Stale.world m)
  /\ entries (state (Stale.world m)) = [Sample.entryA; Sample.entryB]
  /\ entries (state w') =
     [Sample.entryA; Sample.entryB; Sample.entryC; Sample.entryD]
  /\ page (state w') = 2.
Proof.
  intros m mid w'.
  assert (Hg : may_load (Stale.world m)) by (split; reflexivity).
  assert (Hm : Forall (Stale.other_than 1) mid)
    by (repeat constructor; simpl; discriminate).
  pose proof (@loadMore_appends_once_after_render Sample.feed_loaded
                (Stale.Scroll (Some Sample.near_bottom)) mid Sample.page2
                Hg eq_refl Hm) as (He & _ & _ & Hp & _).
  split; [exact Hg|]. split; [reflexivity|]. split; [exact He | exact Hp].
Defined.

(** One event sends nothing or the request for the page after the one the
    handlers saw, and the page the handlers see never goes down. *)
Lemma stale_step_sent e m :
  Stale.sound m ->
  (Net.sent (net (Stale.world (Stale.step e m))) = Net.sent (net (Stale.world m))
   \/ Net.sent (net (Stale.world (Stale.step e m))) =
      Net.sent (net (Stale.world m)) ++ [getEntries (page (Stale.seen m) + 1) 20])
  /\ page (Stale.seen m) <= page (Stale.seen (Stale.step e m)).
Proof.
  intros (Hp & Hpg & _).
  assert (L : forall w seen,
             Net.sent (net (Stale.loadMore_of seen w)) = Net.sent (net w)
             \/ Net.sent (net (Stale.loadMore_of seen w)) =
                Net.sent (net w) ++ [getEntries (page seen + 1) 20]).
  { intros w seen. unfold Stale.loadMore_of.
    destruct (negb _ && _); [right | left; reflexivity].
    unfold seq, fetchEntries, seq. destruct (_ =? 1); reflexivity. }
  destruct e as [|c|i o|]; simpl.
  - split; [apply L | lia].
  - split; [|lia].
    destruct (handleScroll_of_cases (Stale.seen m) c (Stale.world m)) as [-> | ->];
      [left; reflexivity | apply L].
  - split; [left; apply settle_sent | lia].
  - split; [left; reflexivity|]. destruct Hpg as [-> | ->]; lia.
Qed.

Lemma stale_later_requests sched m :
  Stale.sound m ->
  exists new,
    Net.sent (net (Stale.world (Stale.run sched m))) =
      Net.sent (net (Stale.world m)) ++ new
    /\ Forall (Stale.asks_beyond (page (Stale.seen m))) new.
Proof.
  revert m; induction sched as [|e sched IH]; intros m S; simpl.
  - exists []. rewrite app_nil_r. split; [reflexivity | constructor].
  - destruct (IH _ (sound_step e S)) as (new & Hs & Hn).
    destruct (stale_step_sent e S) as [Hsent Hle].
    assert (Hn' : Forall (Stale.asks_beyond (page (Stale.seen m))) new).
    { eapply Forall_impl; [|exact Hn]. intros [q l| | |]; simpl; auto. lia. }
    destruct Hsent as [E | E]; rewrite E in Hs.
    + exists new. auto.
    + exists (getEntries (page (Stale.seen m) + 1) 20 :: new).
      rewrite Hs, <- app_assoc. split; [reflexivity|].
      constructor; [simpl; lia | exact Hn'].
Qed.

(** X22. If the page has rendered after every earlier event and the guard
    of [loadMore] is open, a click or a scroll near the bottom advances
    [page] to the page it asks for before the request settles. When that
    request fails, [page] stays advanced and the entries are kept; once
    the page has rendered again, the next click asks for the page after
    the failed one, and no request sent from then on, whatever the order of
    events and renders, asks for the failed page or an earlier one. *)
Theorem failed_page_is_skipped_after_render
  (evs : list Event) (e : Stale.Event) (mid later : list Stale.Event) (err : thrown) :
  let m := Stale.run (Stale.paced evs) Stale.mount in
  let w := Stale.world m in
  let k := Net.next_id (net w) in
  may_load w ->
  Stale.triggers e ->
  Forall (Stale.other_than k) mid ->
  let failed_page := page (state w) + 1 in
  let m1 := Stale.run (e :: Stale.Render :: mid) m in
  let m2 := Stale.run [Stale.Settle k (Rejected err); Stale.Render] m1 in
  (page (state (Stale.world m1)) = failed_page
   /\ Net.sent (net (Stale.world m1)) = Net.sent (net w) ++ [getEntries failed_page 20]
   /\ Net.pending (net (Stale.world m1)) = [(k, mkCall failed_page true)])
  /\ page (state (Stale.world m2)) = failed_page
  /\ entries (state (Stale.world m2)) = entries (state w)
  /\ Net.sent (net (Stale.world (Stale.step Stale.Click m2))) =
       Net.sent (net w) ++ [getEntries failed_page 20; getEntries (failed_page + 1) 20]
  /\ exists new,
       Net.sent (net (Stale.world (Stale.run later m2))) =
         Net.sent (net (Stale.world m2)) ++ new
       /\ Forall (Stale.asks_beyond failed_page) new.
Proof.
  intros m w k Hg He Hmid failed_page m1 m2.
  assert (Ew : w = run evs mount)
    by (unfold w, m, Stale.mount; rewrite paced_run; reflexivity).
  pose proof Hg as Hg'. rewrite Ew in Hg'.
  destruct (trigger_then_render evs e Hg' He) as [T F].
  fold m in T. rewrite <- Ew in T, F.
  assert (E1 : m1 = Stale.mkMounted (loadMore w) (state (loadMore w))).
  { unfold m1.
    change (e :: Stale.Render :: mid) with ([e; Stale.Render] ++ mid).
    unfold Stale.run at 1. rewrite fold_left_app.
    fold (Stale.run [e; Stale.Render] m). rewrite T.
    apply (@waiting_for_settle k (mkCall (page (state w) + 1) true) mid (loadMore w));
      [rewrite F; reflexivity | rewrite F; reflexivity | exact Hmid]. }
  assert (S2 : Stale.sound m2).
  { unfold m2, m1, m. repeat apply sound_run. apply sound_mount. }
  assert (E2 : m2 = Stale.mkMounted (settle k (Rejected err) (loadMore w))
                      (state (settle k (Rejected err) (loadMore w))))
    by (unfold m2; rewrite E1; reflexivity).
  assert (W2 : settle k (Rejected err) (loadMore w) =
               mkWorld (mkState (entries (state w)) false failed_page true false)
                       (Net.mk (Net.sent (net w) ++ [getEntries failed_page 20]) [])
                       (console w ++ [err])).
  { rewrite F. unfold settle; simpl. unfold k. rewrite Nat.eqb_refl. reflexivity. }
  split; [rewrite E1, F; repeat split|].
  split; [rewrite E2, W2; reflexivity|].
  split; [rewrite E2, W2; reflexivity|].
  split.
  - rewrite E2, W2. simpl. unfold Stale.loadMore_of; simpl.
    unfold seq, fetchEntries, seq.
    destruct (Z.eqb_spec (failed_page + 1) 1) as [Ex|_]; simpl.
    + exfalso. destruct (quiet_run evs quiet_mount) as [Hp _].
      rewrite <- Ew in Hp. unfold failed_page in Ex. lia.
    + now rewrite <- app_assoc.
  - destruct (stale_later_requests later S2) as (new & Hs & Hn).
    exists new. split; [exact Hs|].
    rewrite E2, W2 in Hn. exact Hn.
Qed.

Lemma failed_page_is_skipped_after_render_witness :
  let m := Stale.run (Stale.paced Sample.feed_loaded) Stale.mount in
  let mid := [Stale.Click; Stale.Scroll (Some Sample.near_bottom)] in
  let m2 := Stale.run [Stale.Settle 1 (Rejected Sample.http500); Stale.Render]
              (Stale.run (Stale.Click :: Stale.Render :: mid) m) in
  let later := [Stale.Scroll (Some Sample.near_bottom);
                Stale.Scroll (Some Sample.near_bottom); Stale.Render; Stale.Click] in
  may_load (Stale.world m)
  /\ page (state (Stale.world m2)) = 2
  /\ Net.sent (net (Stale.world (Stale.step Stale.Click m2))) =
       [getEntries 1 20; getEntries 2 20; getEntries 3 20]
  /\ exists new,
       Net.sent (net (Stale.world (Stale.run later m2))) =
         Net.sent (net (Stale.world m2)) ++ new
       /\ Forall (Stale.asks_beyond 2) new.
Proof.
  intros m mid m2 later.
  assert (Hg : may_load (Stale.world m)) by (split; reflexivity).
  assert (Hm : Forall (Stale.other_than 1) mid) by (repeat constructor).
  pose proof (@failed_page_is_skipped_after_render Sample.feed_loaded Stale.Click
                mid later Sample.http500 Hg I Hm) as (_ & Hp & _ & Hs & Hl).
  split; [exact Hg|]. split; [exact Hp|]. split; [exact Hs | exact Hl].
Defined.

End StaleProperties.
